(** * CRM query processor: the generate / execute / retry loop

    A shallow embedding of [src/crmqueryprocessor.py] (class
    [CRMQueryProcessor]) and the properties its specification states.

    Python [str] values are modelled as lists of characters ([list ascii]),
    a character being a code point below 256; text written in the source is
    given as a literal and converted with [lit].  The generation service,
    the database, the clock and [json.dumps] are the outside world: a run
    takes their answers from a [world] and records what it does to them in
    a trace.  Calls of the logger are left out; what the generation service
    returns is taken to be text. *)

From Stdlib Require Import Ascii String List Arith Bool Lia ZArith.
From Stdlib Require Import DecimalString DecimalNat.
From Equations Require Import Equations.
Import ListNotations.

Local Open Scope list_scope.

(** ** Strings *)

Module Str.

Definition str := list ascii.

Definition lit (s : string) : str := list_ascii_of_string s.

(** The double quote character, for source text that contains it. *)
Definition dquote : ascii := ascii_of_nat 34.

(** [str.isspace] on one character, which is also what [\s] matches in a
    [str] pattern: TAB, LF, VT, FF, CR, the separators FS, GS, RS, US,
    SPACE, NEL and NBSP. *)
Definition is_space (c : ascii) : bool :=
  let n := nat_of_ascii c in
  ((9 <=? n) && (n <=? 13)) || ((28 <=? n) && (n <=? 32))
  || (n =? 133) || (n =? 160).

(** [s.lstrip()], [s.rstrip()] and [s.strip()] without argument. *)
Fixpoint lstrip (s : str) : str :=
  match s with
  | [] => []
  | c :: t => if is_space c then lstrip t else s
  end.

Definition rstrip (s : str) : str := rev (lstrip (rev s)).

Definition strip (s : str) : str := rstrip (lstrip s).

(** [strip_prefix p s] is [Some r] when [s = p ++ r]. *)
Fixpoint strip_prefix (p s : str) : option str :=
  match p, s with
  | [], _ => Some s
  | _ :: _, [] => None
  | a :: p', b :: s' => if Ascii.eqb a b then strip_prefix p' s' else None
  end.

Definition startswith (p s : str) : bool :=
  match strip_prefix p s with Some _ => true | None => false end.

(** [s.endswith(p)]. *)
Definition endswith (p s : str) : bool := startswith (rev p) (rev s).

(** [p in s] for two strings. *)
Fixpoint contains (p s : str) : bool :=
  startswith p s ||
  match s with
  | [] => false
  | _ :: t => contains p t
  end.

(** [c.lower()] for one character below 256: the letters A-Z and the
    Latin-1 capitals 192-222 (but not the multiplication sign 215) move up
    by 32. *)
Definition lower_char (c : ascii) : ascii :=
  let n := nat_of_ascii c in
  if ((65 <=? n) && (n <=? 90))
     || ((192 <=? n) && (n <=? 222) && negb (n =? 215))
  then ascii_of_nat (n + 32) else c.

Definition lower (s : str) : str := map lower_char s.

(** The line feed, and [sep.join(l)]. *)
Definition nl : str := [ascii_of_nat 10].

Fixpoint join (sep : str) (l : list str) : str :=
  match l with
  | [] => []
  | [x] => x
  | x :: t => x ++ sep ++ join sep t
  end.

(** A text given line by line: the lines joined by line feeds. *)
Definition text (l : list str) : str := join nl l.

Fixpoint str_eqb (a b : str) : bool :=
  match a, b with
  | [], [] => true
  | x :: a', y :: b' => Ascii.eqb x y && str_eqb a' b'
  | _, _ => false
  end.

(** [str(n)] for a non-negative integer. *)
Definition str_of_nat (n : nat) : str :=
  lit (NilZero.string_of_uint (Nat.to_uint n)).

End Str.
Import Str.

(** ** Regular-expression substitution *)

Module Re.

(** [re.sub(pattern, '', s)]: the matches of the pattern are found from left
    to right without overlap and deleted.  A pattern is given by its matcher
    at the head of the text: [m s = Some r] when the pattern matches a prefix
    of [s] and [r] is the text after that match.  A match that consumes
    nothing deletes nothing, and the scan moves one character on; both
    patterns of [clean_sql] need three characters, so nothing matches at the
    end of the text. *)
Equations re_sub_del (m : str -> option str) (s : str) : str
  by wf (length s) lt :=
  re_sub_del m [] := [];
  re_sub_del m (c :: t) with m (c :: t) => {
    | Some r with lt_dec (length r) (length (c :: t)) => {
        | left _ := re_sub_del m r;
        | right _ := c :: re_sub_del m t };
    | None := c :: re_sub_del m t }.

(** The fence that opens a SQL block, and a bare fence. *)
Definition sql_fence : str := lit "```sql".
Definition fence : str := lit "```".

(** The pattern [```sql\s*]: the opening fence and all the white space that
    follows it (the star is greedy and nothing comes after it). *)
Definition match_sql_fence (s : str) : option str :=
  match strip_prefix sql_fence s with
  | Some r => Some (lstrip r)
  | None => None
  end.

(** [$] without the MULTILINE flag: the end of the text, or just before a
    line feed that ends the text. *)
Definition at_dollar (s : str) : bool :=
  match s with
  | [] => true
  | [c] => Ascii.eqb c (ascii_of_nat 10)
  | _ => false
  end.

(** [\s*$]: the star takes as much white space as it can and gives
    characters back until [$] holds; the result is the text after the
    match. *)
Fixpoint match_ws_dollar (s : str) : option str :=
  match s with
  | [] => Some []
  | c :: t =>
      if is_space c then
        match match_ws_dollar t with
        | Some r => Some r
        | None => if at_dollar s then Some s else None
        end
      else if at_dollar s then Some s else None
  end.

(** The pattern [```\s*$]. *)
Definition match_trailing_fence (s : str) : option str :=
  match strip_prefix fence s with
  | Some r => match_ws_dollar r
  | None => None
  end.

End Re.
Import Re.

(** ** [CRMQueryProcessor.clean_sql] *)

Definition clean_sql (sql : str) : str :=
  let sql := re_sub_del match_sql_fence sql in
  let sql := re_sub_del match_trailing_fence sql in
  strip sql.

(** ** Values, records and the configuration *)

(** The Python values that occur in results: [None], integers, strings,
    lists and dictionaries.  A dictionary keeps its keys in insertion
    order. *)
#[warnings="-register-all"]
Inductive value :=
| VNone
| VInt (n : Z)
| VStr (s : str)
| VList (l : list value)
| VDict (d : list (str * value)).

Definition dict := list (str * value).

(** [d[k] = v]: an existing key keeps its place, a new key goes last. *)
Fixpoint dict_set (k : str) (v : value) (d : dict) : dict :=
  match d with
  | [] => [(k, v)]
  | (k', v') :: t =>
      if str_eqb k k' then (k, v) :: t else (k', v') :: dict_set k v t
  end.

(** [dict(pairs)] and the dictionary display [{k1: v1, ...}]. *)
Definition dict_of (pairs : list (str * value)) : dict :=
  fold_left (fun d kv => dict_set (fst kv) (snd kv) d) pairs [].

Definition keys (d : dict) : list str := map fst d.

Fixpoint dict_get (k : str) (d : dict) : option value :=
  match d with
  | [] => None
  | (k', v) :: t => if str_eqb k k' then Some v else dict_get k t
  end.

(** [zip(a, b)] stops at the shorter list: [List.combine]. *)
Definition zip {A B} (a : list A) (b : list B) : list (A * B) := combine a b.

(** A row as the driver returns it, and the records made from rows. *)
Definition row := list value.

(** What [__init__] reads from the environment: [os.getenv] gives [None]
    for a variable that is not set; the port has a default. *)
Record config := {
  db_host : option str;
  db_name : option str;
  db_user : option str;
  db_password : option str;
  db_port : str;
  openai_api_key : option str
}.

(** Truth value of an optional string: [None] and the empty string are
    false. *)
Definition truthy (o : option str) : bool :=
  match o with
  | Some (_ :: _) => true
  | _ => false
  end.

Definition MAX_RETRIES : nat := 3.
Definition RETRY_DELAY : nat := 1.

(** ** The outside world *)

(** An external call returns a value or raises; an exception is kept as its
    message, [str(e)]. *)
Definition exn := str.

Inductive outcome (A : Type) :=
| Ok (a : A)
| Fail (msg : exn).
Arguments Ok {A} a.
Arguments Fail {A} msg.

Record message := { role : str; content : str }.

(** The cursor after a successful [execute]: its [description] ([None] for
    a statement that yields no rows, else the column names) and what
    [fetchall] gives. *)
Record cursor_state := {
  description : option (list str);
  fetchall_r : outcome (list row)
}.

(** What the database driver answers during one connection, step by step. *)
Record session := {
  connect_r : outcome unit;
  cursor_r : outcome unit;
  execute_r : str -> outcome cursor_state;
  commit_r : outcome unit;
  rollback_r : outcome unit
}.

(** The services a run talks to.  Each answer may depend on the number of
    earlier calls to that service, so any sequence of answers is covered. *)
Record world := {
  chat : nat -> str -> list message -> outcome str;
  database : nat -> config -> session;
  now : nat -> str;
  json_dumps : list dict -> str
}.

(** What a run does to the outside, in order.  [EvInsights] marks an entry
    into [generate_insights] with its arguments. *)
Inductive event :=
| EvChat (model : str) (messages : list message)
| EvConnect (h : nat) (ok : bool)
| EvCursor (h : nat) (ok : bool)
| EvExecute (h : nat) (sql : str)
| EvFetchall (h : nat)
| EvCursorClose (h : nat)
| EvCommit (h : nat)
| EvRollback (h : nat)
| EvConnClose (h : nat)
| EvSleep (seconds : nat)
| EvInsights (results : list dict) (query : str).

Definition trace := list event.

Definition is_chat (e : event) : bool :=
  match e with EvChat _ _ => true | _ => false end.
Definition is_connect (e : event) : bool :=
  match e with EvConnect _ _ => true | _ => false end.
Definition is_sleep (e : event) : bool :=
  match e with EvSleep _ => true | _ => false end.
Definition is_insights (e : event) : bool :=
  match e with EvInsights _ _ => true | _ => false end.
Definition is_db (e : event) : bool :=
  match e with
  | EvConnect _ _ | EvCursor _ _ | EvExecute _ _ | EvFetchall _
  | EvCursorClose _ | EvCommit _ | EvRollback _ | EvConnClose _ => true
  | _ => false
  end.

Definition count (p : event -> bool) (t : trace) : nat :=
  List.length (filter p t).

(** ** Computations: a trace and exceptions *)

Module Run.

Inductive result (A : Type) :=
| Ret (a : A)
| Raise (e : exn).
Arguments Ret {A} a.
Arguments Raise {A} e.

Definition M (A : Type) : Type := trace -> result A * trace.

Definition ret {A} (a : A) : M A := fun t => (Ret a, t).

Definition raise {A} (e : exn) : M A := fun t => (Raise e, t).

Definition bind {A B} (c : M A) (k : A -> M B) : M B :=
  fun t =>
    match c t with
    | (Ret a, t') => k a t'
    | (Raise e, t') => (Raise e, t')
    end.

(** [try: c  except Exception as e: h e]. *)
Definition try_except {A} (c : M A) (h : exn -> M A) : M A :=
  fun t =>
    match c t with
    | (Ret a, t') => (Ret a, t')
    | (Raise e, t') => h e t'
    end.

Definition emit (e : event) : M unit := fun t => (Ret tt, t ++ [e]).

Definition get_trace : M trace := fun t => (Ret t, t).

(** Turning the answer of a service into a return or an exception. *)
Definition of_outcome {A} (o : outcome A) : M A :=
  match o with
  | Ok a => ret a
  | Fail msg => raise msg
  end.

(** [with acquire as r: body r]: the context is left through [exit_] on a
    return and on an exception alike; the two drivers' [__exit__] return
    [None], so an exception of the body goes on after it. *)
Definition with_ {R A} (acquire : M R) (exit_ : R -> option exn -> M unit)
    (body : R -> M A) : M A :=
  bind acquire (fun r =>
    fun t =>
      match body r t with
      | (Ret a, t') => bind (exit_ r None) (fun _ => ret a) t'
      | (Raise e, t') => bind (exit_ r (Some e)) (fun _ => raise e) t'
      end).

End Run.
Import Run.

Declare Scope run_scope.
Delimit Scope run_scope with run.
Notation "x <- c ;; k" := (bind c (fun x => k))
  (at level 61, c at next level, right associativity) : run_scope.
Notation "c ;; k" := (bind c (fun _ => k))
  (at level 61, right associativity) : run_scope.
Local Open Scope run_scope.

(** ** The database driver

    [psycopg2] as the processor uses it.  In this driver, leaving a
    connection's [with] block commits the transaction on a return and rolls
    it back on an exception; it does not close the connection, which is
    what [connection.close] does.  Leaving a cursor's [with] block closes
    the cursor. *)

Module Psycopg2.
Section Driver.

Variable w : world.
Variable cfg : config.

(** [psycopg2.connect] with the entries of [db_config]; the handle is the
    number of the connection. *)
Definition connect : M nat :=
  t <- get_trace ;;
  let h := count is_connect t in
  match connect_r (database w h cfg) with
  | Ok _ => emit (EvConnect h true) ;; ret h
  | Fail msg => emit (EvConnect h false) ;; raise msg
  end.

Definition connection_exit (h : nat) (exc : option exn) : M unit :=
  match exc with
  | None => emit (EvCommit h) ;; of_outcome (commit_r (database w h cfg))
  | Some _ => emit (EvRollback h) ;; of_outcome (rollback_r (database w h cfg))
  end.

Definition connection_close (h : nat) : M unit := emit (EvConnClose h).

(** [conn.cursor()]. *)
Definition cursor (h : nat) : M nat :=
  match cursor_r (database w h cfg) with
  | Ok _ => emit (EvCursor h true) ;; ret h
  | Fail msg => emit (EvCursor h false) ;; raise msg
  end.

Definition cursor_exit (h : nat) (exc : option exn) : M unit :=
  emit (EvCursorClose h).

Definition execute (h : nat) (sql : str) : M cursor_state :=
  emit (EvExecute h sql) ;; of_outcome (execute_r (database w h cfg) sql).

Definition fetchall (h : nat) (cs : cursor_state) : M (list row) :=
  emit (EvFetchall h) ;; of_outcome (fetchall_r cs).

End Driver.
End Psycopg2.

(** ** The processor *)

Section Processor.

Variable w : world.
Variable cfg : config.

(** [self.schema]. *)
Definition schema : str :=
  text
    [ lit "";
      lit "        Tables and their relationships:";
      lit "        ";
      lit "        ordertab (order_id, client_id, customer_id, lead_id, status, type, created, updated, deleted)";
      lit "        - Links to customer through customer_id";
      lit "        - Links to lead through lead_id";
      lit "        ";
      lit "        customer (customer_id, client_id, name, email, phone, income_group, marital_status, source)";
      lit "        - Referenced by ordertab";
      lit "        ";
      lit "        lead (lead_id, client_id, user_id, name, email, phone, status, source, income)";
      lit "        - Referenced by ordertab";
      lit "        - Has followups in leadfollowup";
      lit "        ";
      lit "        product (product_id, client_id, name, price, sale_commission, status, type)";
      lit "        - Used in order_product_mapping and leadproduct";
      lit "        ";
      lit "        order_product_mapping (id, order_id, product_id, product_quantity, rate)";
      lit "        - Links orders to products";
      lit "        " ].

(** The prompt that [enhance_query] composes before it calls the generation
    service: the formatted text, and the note added to it for a question
    about this month. *)
Definition this_month_note : str :=
  nl ++ lit "Note: Use January 2024 as 'this month' for the sample data.".

Definition prompt_template (natural_query : str) (attempt : nat) : str :=
  text
    [ lit "";
      lit "        Given this database schema:";
      lit "        " ++ schema;
      lit "        ";
      lit "        Important notes:";
      lit "        1. Sample data is from Jan-Mar 2024, use this date range for " ++ [dquote] ++ lit "current" ++ [dquote] ++ lit " queries";
      lit "        2. Use proper JOIN conditions and handle NULL values";
      lit "        3. For revenue calculations, use product_quantity * rate";
      lit "        4. Always check deleted = false or IS NULL where applicable";
      lit "        5. Use CAST for decimal calculations";
      lit "        ";
      lit "        This is attempt " ++ str_of_nat attempt ++ lit " of " ++ str_of_nat MAX_RETRIES ++ lit ".";
      lit "        If previous attempts failed, generate a different variation of the query.";
      lit "        ";
      lit "        Convert this business question to PostgreSQL (return ONLY the SQL): " ++ natural_query;
      lit "        ";
      lit "        Important schema and PostgreSQL notes:";
      lit "        - User table is named 'bizuser' (not 'users')";
      lit "        - User fields are first_name, last_name (not name)";
      lit "        - Lead status values are: NEW, IN_PROGRESS, QUALIFIED, CONVERTED";
      lit "        - Order status values are: NEW, IN_PROGRESS, COMPLETED, DELIVERED";
      lit "        - For decimal calculations, use CAST(value AS numeric(10,2))";
      lit "        - For aggregations with decimals, use CAST(SUM/AVG as numeric(10,2))";
      lit "        " ].

Definition enhance_prompt (natural_query : str) (attempt : nat) : str :=
  let prompt := prompt_template natural_query attempt in
  if contains (lit "this month") (lower natural_query)
  then prompt ++ this_month_note
  else prompt.

Definition gpt_model : str := lit "gpt-4-turbo-preview".

(** [self.client.chat.completions.create(model=..., messages=...)] followed
    by [response.choices[0].message.content]. *)
Definition chat_create (messages : list message) : M str :=
  t <- get_trace ;;
  emit (EvChat gpt_model messages) ;;
  of_outcome (chat w (count is_chat t) gpt_model messages).

Definition sql_messages (prompt : str) : list message :=
  [ {| role := lit "system";
       content := lit "You are a SQL expert. Return ONLY the SQL query without any markdown formatting or explanations." |};
    {| role := lit "user"; content := prompt |} ].

Definition enhance_query (natural_query : str) (attempt : nat) : M str :=
  let prompt := enhance_prompt natural_query attempt in
  content <- chat_create (sql_messages prompt) ;;
  let sql := strip content in
  ret (clean_sql sql).

(** Iterating [cur.description] when it is [None] raises a [TypeError]. *)
Definition columns_of (cs : cursor_state) : M (list str) :=
  match description cs with
  | Some cols => ret cols
  | None => raise (lit "'NoneType' object is not iterable")
  end.

Definition execute_query (sql : str) : M (list dict) :=
  try_except
    (with_ (Psycopg2.connect w cfg) (Psycopg2.connection_exit w cfg) (fun conn =>
       with_ (Psycopg2.cursor w cfg conn) Psycopg2.cursor_exit (fun cur =>
         cs <- Psycopg2.execute w cfg cur sql ;;
         columns <- columns_of cs ;;
         results <- Psycopg2.fetchall cur cs ;;
         ret (map (fun r : row => dict_of (zip columns r)) results))))
    (fun e => raise (lit "Database error: " ++ e)).

Definition insight_prompt (results : list dict) (query : str) : str :=
  text
    [ lit "";
      lit "        Analyze these query results for the question: " ++ [dquote] ++ query ++ [dquote];
      lit "        ";
      lit "        Data:";
      lit "        " ++ json_dumps w results;
      lit "        ";
      lit "        Provide:";
      lit "        1. Key metrics and their significance";
      lit "        2. Notable patterns or trends";
      lit "        3. Business implications";
      lit "        4. Potential action items";
      lit "        ";
      lit "        Keep insights concise and actionable.";
      lit "        " ].

Definition insight_messages (prompt : str) : list message :=
  [ {| role := lit "system";
       content := lit "You are a business analyst providing concise, actionable insights." |};
    {| role := lit "user"; content := prompt |} ].

Definition generate_insights (results : list dict) (query : str) : M str :=
  emit (EvInsights results query) ;;
  chat_create (insight_messages (insight_prompt results query)).

(** [datetime.now().isoformat()] and [time.sleep]. *)
Definition now_isoformat : M str :=
  t <- get_trace ;; ret (now w (List.length t)).

Definition sleep (seconds : nat) : M unit := emit (EvSleep seconds).

(** One attempt: [Some] record on success, [None] after a failure that is
    to be retried, an exception after a failure of the last attempt. *)
Definition attempt_query_execution (natural_query : str) (attempt : nat)
  : M (option dict) :=
  try_except
    (sql <- enhance_query natural_query attempt ;;
     results <- execute_query sql ;;
     match results with
     | [] => raise (lit "Query returned no results")
     | _ :: _ =>
         insights <- generate_insights results natural_query ;;
         timestamp <- now_isoformat ;;
         ret (Some (dict_of
           [ (lit "query", VStr natural_query);
             (lit "sql", VStr sql);
             (lit "results", VList (map VDict results));
             (lit "insights", VStr insights);
             (lit "attempt", VInt (Z.of_nat attempt));
             (lit "timestamp", VStr timestamp) ]))
     end)
    (fun e =>
       if attempt <? MAX_RETRIES then
         sleep RETRY_DELAY ;; ret None
       else raise e).

(** Truth value of what an attempt returned: [None] and the empty
    dictionary are false. *)
Definition truthy_result (r : option dict) : bool :=
  match r with
  | Some (_ :: _) => true
  | _ => false
  end.

(** [str(last_error)]. *)
Definition str_of_error (e : option exn) : str :=
  match e with
  | Some msg => msg
  | None => lit "None"
  end.

(** The [for attempt in range(1, MAX_RETRIES + 1)] loop of [process_query]:
    [inl] is the record returned from inside the loop, [inr] the value of
    [last_error] when the loop runs out. *)
Fixpoint attempts (natural_query : str) (range : list nat)
    (last_error : option exn) : M (dict + option exn) :=
  match range with
  | [] => ret (inr last_error)
  | attempt :: rest =>
      r <- try_except
             (result <- attempt_query_execution natural_query attempt ;;
              ret (inl result))
             (fun e => ret (inr e)) ;;
      match r with
      | inl (Some d as result) =>
          if truthy_result result then ret (inl d)
          else attempts natural_query rest last_error
      | inl None => attempts natural_query rest last_error
      | inr e => attempts natural_query rest (Some e)
      end
  end.

Definition failure (error_msg natural_query timestamp : str) : dict :=
  dict_of
    [ (lit "error", VStr error_msg);
      (lit "query", VStr natural_query);
      (lit "timestamp", VStr timestamp) ].

Definition process_query (natural_query : str) : M dict :=
  try_except
    (if negb (forallb truthy
                [db_host cfg; db_name cfg; db_user cfg; db_password cfg])
     then raise (lit "Database configuration is incomplete")
     else if negb (truthy (openai_api_key cfg))
     then raise (lit "OpenAI API key is not set")
     else
       r <- attempts natural_query (seq 1 MAX_RETRIES) None ;;
       match r with
       | inl result => ret result
       | inr last_error =>
           let error_msg :=
             lit "All " ++ str_of_nat MAX_RETRIES
               ++ lit " attempts failed. Last error: "
               ++ str_of_error last_error in
           timestamp <- now_isoformat ;;
           ret (failure error_msg natural_query timestamp)
       end)
    (fun e =>
       let error_msg := e in
       timestamp <- now_isoformat ;;
       ret (failure error_msg natural_query timestamp)).

End Processor.

(** ** Vocabulary of the properties *)

(** The two shapes of the record that [process_query] returns. *)
Definition is_success (natural_query : str) (d : dict) : Prop :=
  exists sql results insights attempt timestamp,
    d = [ (lit "query", VStr natural_query);
          (lit "sql", VStr sql);
          (lit "results", VList (map VDict results));
          (lit "insights", VStr insights);
          (lit "attempt", VInt (Z.of_nat attempt));
          (lit "timestamp", VStr timestamp) ]
    /\ results <> [] /\ 1 <= attempt <= MAX_RETRIES.

Definition is_failure (natural_query : str) (d : dict) : Prop :=
  exists error_msg timestamp,
    d = [ (lit "error", VStr error_msg);
          (lit "query", VStr natural_query);
          (lit "timestamp", VStr timestamp) ].

(** The configuration holds the four database credentials and the key of
    the generation service. *)
Definition configured (cfg : config) : bool :=
  forallb truthy [db_host cfg; db_name cfg; db_user cfg; db_password cfg]
  && truthy (openai_api_key cfg).

(** A session in which the statement runs and yields the given rows, and
    one in which running the statement fails. *)
Definition answers_rows (s : session) (sql : str) (columns : list str)
    (rows : list row) : Prop :=
  connect_r s = Ok tt /\ cursor_r s = Ok tt
  /\ execute_r s sql
     = Ok {| description := Some columns; fetchall_r := Ok rows |}
  /\ commit_r s = Ok tt.

Definition execution_fails (s : session) (sql : str) (msg : exn) : Prop :=
  connect_r s = Ok tt /\ cursor_r s = Ok tt
  /\ execute_r s sql = Fail msg /\ rollback_r s = Ok tt.

(** [generate_insights] is only entered with rows. *)
Definition insights_have_rows (e : event) : Prop :=
  match e with
  | EvInsights results _ => results <> []
  | _ => True
  end.

(** Connections and cursors that a trace opens and closes, and the
    transactions it ends. *)
Definition opened_connections : trace -> nat :=
  count (fun e => match e with EvConnect _ true => true | _ => false end).
Definition closed_connections : trace -> nat :=
  count (fun e => match e with EvConnClose _ => true | _ => false end).
Definition opened_cursors : trace -> nat :=
  count (fun e => match e with EvCursor _ true => true | _ => false end).
Definition closed_cursors : trace -> nat :=
  count (fun e => match e with EvCursorClose _ => true | _ => false end).
Definition commits : trace -> nat :=
  count (fun e => match e with EvCommit _ => true | _ => false end).
Definition rollbacks : trace -> nat :=
  count (fun e => match e with EvRollback _ => true | _ => false end).

(** Worlds and configurations to run the processor on. *)
Definition session_with (rows : list row) : session :=
  {| connect_r := Ok tt;
     cursor_r := Ok tt;
     execute_r := fun _ =>
       Ok {| description := Some [lit "n"]; fetchall_r := Ok rows |};
     commit_r := Ok tt;
     rollback_r := Ok tt |}.

Definition failing_session : session :=
  {| connect_r := Ok tt;
     cursor_r := Ok tt;
     execute_r := fun _ => Fail (lit "syntax error");
     commit_r := Ok tt;
     rollback_r := Ok tt |}.

Definition unreachable_session : session :=
  {| connect_r := Fail (lit "connection refused");
     cursor_r := Ok tt;
     execute_r := fun _ => Fail (lit "syntax error");
     commit_r := Ok tt;
     rollback_r := Ok tt |}.

Definition world_with (db : nat -> session) : world :=
  {| chat := fun _ _ _ => Ok (lit "```sql SELECT count(*) AS n FROM ordertab ```");
     database := fun h _ => db h;
     now := fun _ => lit "2024-01-15T10:00:00";
     json_dumps := fun _ => lit "[]" |}.

(** No row is ever found. *)
Definition empty_world : world := world_with (fun _ => session_with []).

(** The first statement fails and the second yields five rows. *)
Definition five_rows : list row :=
  [[VInt 1]; [VInt 2]; [VInt 3]; [VInt 4]; [VInt 5]].

Definition second_try_world : world :=
  world_with (fun h => match h with
                       | 0 => failing_session
                       | _ => session_with five_rows
                       end).

Definition full_config : config :=
  {| db_host := Some (lit "localhost");
     db_name := Some (lit "crm");
     db_user := Some (lit "crm");
     db_password := Some (lit "secret");
     db_port := lit "5432";
     openai_api_key := Some (lit "sk-test") |}.

Definition no_password_config : config :=
  {| db_host := Some (lit "localhost");
     db_name := Some (lit "crm");
     db_user := Some (lit "crm");
     db_password := None;
     db_port := lit "5432";
     openai_api_key := Some (lit "sk-test") |}.

(** The computation came back with a value. *)
Definition returns {A} (r : result A) : Prop :=
  match r with
  | Ret _ => True
  | Raise _ => False
  end.

(** The events of a call of [execute_query] on connection [h] that returns
    rows, and of one whose statement fails. *)
Definition rows_events (h : nat) (sql : str) : trace :=
  [EvConnect h true; EvCursor h true; EvExecute h sql; EvFetchall h;
   EvCursorClose h; EvCommit h].

Definition failure_events (h : nat) (sql : str) : trace :=
  [EvConnect h true; EvCursor h true; EvExecute h sql;
   EvCursorClose h; EvRollback h].

(** [spec P c Q]: from any trace, [c] adds events that all satisfy [P], and
    what it returns or raises satisfies [Q]. *)
Definition spec {A} (P : event -> Prop) (c : M A) (Q : result A -> Prop)
  : Prop :=
  forall t, exists evs,
    snd (c t) = t ++ evs /\ Forall P evs /\ Q (fst (c t)).

(** An attempt returns [None] or a success record, or raises. *)
Definition attempt_post (natural_query : str) (r : result (option dict))
  : Prop :=
  match r with
  | Ret (Some d) => is_success natural_query d
  | _ => True
  end.

(** The loop ends with a success record or with the last error; it does
    not raise. *)
Definition attempts_post (natural_query : str)
    (r : result (dict + option exn)) : Prop :=
  match r with
  | Ret (inl d) => is_success natural_query d
  | Ret (inr _) => True
  | Raise _ => False
  end.

(** ** [CRMQueryProcessor.__init__]: the configuration *)



(** ** The endpoint [get_insights] of [crmqueryprocessorapi.py] *)

(** What the endpoint hands to the framework: the response model, or the
    [HTTPException] it raises. *)
Inductive http_result :=
| InsightResponse (insights timestamp : str)
| HTTPException (status_code : nat) (detail : str).

(** What the endpoint takes from its libraries: [str(e)] of an
    [HTTPException] with a given status and detail, and the validation of
    a value that is no string as the [insights] field of the response
    model. *)
Record framework := {
  http_exception_str : nat -> value -> str;
  validate_other : value -> outcome str
}.

(** [len(v)] as the endpoint needs it: whether it is defined, and the
    message of the [TypeError] when it is not. *)
Definition len_error (v : value) : option exn :=
  match v with
  | VNone => Some (lit "object of type 'NoneType' has no len()")
  | VInt _ => Some (lit "object of type 'int' has no len()")
  | _ => None
  end.

(** The body of the [try] block after [process_query] has returned
    [result]: [inl] is the value returned, [inr (inl e)] an exception
    raised with message [e], [inr (inr (c, d))] the [HTTPException] raised
    for an error record.  The three logging statements only matter through
    the [len] of the second one. *)
Definition respond (fw : framework) (result : dict) (timestamp : str)
  : http_result + (exn + nat * value) :=
  match
    match dict_get (lit "results") result with
    | Some v => len_error v
    | None => None
    end
  with
  | Some e => inr (inl e)
  | None =>
      match dict_get (lit "error") result with
      | Some err => inr (inr (500, err))
      | None =>
          match
            match dict_get (lit "insights") result with
            | Some (VStr s) => Ok s
            | Some v => validate_other fw v
            | None => Ok (lit "No insights generated")
            end
          with
          | Ok insights => inl (InsightResponse insights timestamp)
          | Fail e => inr (inl e)
          end
      end
  end.

(** [get_insights]: whatever is raised inside the [try] block, the
    [HTTPException] of the error branch included, is caught by the handler
    and raised again as an [HTTPException] with status 500 and [str(e)] as
    detail. *)
Definition get_insights (fw : framework) (w : world) (cfg : config)
    (query : str) : trace -> http_result * trace :=
  fun t =>
    match process_query w cfg query t with
    | (Raise e, t') => (HTTPException 500 e, t')
    | (Ret result, t') =>
        match respond fw result (now w (List.length t')) with
        | inl response => (response, t')
        | inr (inl e) => (HTTPException 500 e, t')
        | inr (inr (status_code, detail)) =>
            (HTTPException 500 (http_exception_str fw status_code detail), t')
        end
    end.

(** ** More vocabulary *)

(** [subseq a b]: [a] is [b] with some characters deleted. *)
Inductive subseq : str -> str -> Prop :=
| subseq_nil : subseq [] []
| subseq_keep (c : ascii) (a b : str) : subseq a b -> subseq (c :: a) (c :: b)
| subseq_drop (c : ascii) (a b : str) : subseq a b -> subseq a (c :: b).

(** The user prompts of the calls that ask for SQL, and the statements
    sent to the database, in the order of the trace. *)
Definition sql_prompt_of (e : event) : list str :=
  match e with
  | EvChat _ [system; user] =>
      if str_eqb (content system)
           (lit "You are a SQL expert. Return ONLY the SQL query without any markdown formatting or explanations.")
      then [content user] else []
  | _ => []
  end.

Definition sql_prompts (t : trace) : list str := flat_map sql_prompt_of t.

Definition executed_of (e : event) : list str :=
  match e with
  | EvExecute _ sql => [sql]
  | _ => []
  end.

Definition executed (t : trace) : list str := flat_map executed_of t.

(** What the handler of [attempt_query_execution] does with an error:
    before the last attempt it pauses and returns [None], at the last one
    it raises the error again. *)
Definition pause (attempt : nat) : trace :=
  if attempt <? MAX_RETRIES then [EvSleep RETRY_DELAY] else [].

Definition handled (attempt : nat) (e : exn) : result (option dict) :=
  if attempt <? MAX_RETRIES then Ret None else Raise e.

(** The errors an attempt can end with: no row, an error that
    [execute_query] wrapped, or what the generation service raised. *)
Definition attempt_error (w : world) (e : exn) : Prop :=
  e = lit "Query returned no results"
  \/ startswith (lit "Database error: ") e = true
  \/ exists i messages, chat w i gpt_model messages = Fail e.

(** The success record of a given attempt. *)
Definition success_at (natural_query : str) (attempt : nat) (d : dict) : Prop :=
  exists sql results insights timestamp,
    d = [ (lit "query", VStr natural_query);
          (lit "sql", VStr sql);
          (lit "results", VList (map VDict results));
          (lit "insights", VStr insights);
          (lit "attempt", VInt (Z.of_nat attempt));
          (lit "timestamp", VStr timestamp) ]
    /\ results <> [].

(** A statement sent to the database is an answer of the generation
    service, stripped and passed through [clean_sql]. *)
Definition sanitized_answer (w : world) (sql : str) : Prop :=
  exists i messages s,
    chat w i gpt_model messages = Ok s /\ sql = clean_sql (strip s).


Definition sample_framework : framework :=
  {| http_exception_str := fun _ detail =>
       match detail with VStr s => lit "500: " ++ s | _ => lit "500" end;
     validate_other := fun _ => Fail (lit "validation error") |}.

(** * Properties *)

(** ** The model on the examples of the specification *)

Example clean_sql_fenced :
  clean_sql (lit "```sql" ++ nl ++ lit "SELECT 1" ++ nl ++ lit "```")
  = lit "SELECT 1".
Proof. reflexivity. Qed.

Example clean_sql_plain : clean_sql (lit "SELECT 1") = lit "SELECT 1".
Proof. reflexivity. Qed.

Example execute_query_records :
  fst (execute_query
         (world_with (fun _ =>
            {| connect_r := Ok tt;
               cursor_r := Ok tt;
               execute_r := fun _ =>
                 Ok {| description := Some [lit "id"; lit "name"];
                       fetchall_r := Ok [ [VInt 1; VStr (lit "a")];
                                          [VInt 2; VStr (lit "b")] ] |};
               commit_r := Ok tt;
               rollback_r := Ok tt |}))
         full_config (lit "SELECT id, name FROM customer") [])
  = Ret [ [(lit "id", VInt 1); (lit "name", VStr (lit "a"))];
          [(lit "id", VInt 2); (lit "name", VStr (lit "b"))] ].
Proof. reflexivity. Qed.

Example process_query_first_attempt :
  exists sql insights timestamp t,
    process_query (world_with (fun _ => session_with [[VInt 7]])) full_config
      (lit "How many orders this month?") []
    = (Ret [ (lit "query", VStr (lit "How many orders this month?"));
             (lit "sql", VStr sql);
             (lit "results", VList [VDict [(lit "n", VInt 7)]]);
             (lit "insights", VStr insights);
             (lit "attempt", VInt 1);
             (lit "timestamp", VStr timestamp) ], t)
    /\ sql = lit "SELECT count(*) AS n FROM ordertab"
    /\ count is_chat t = 2 /\ count is_sleep t = 0.
Proof. eexists _, _, _, _. repeat split; reflexivity. Qed.

(** ** White space and prefixes *)

Section StrFacts.

Lemma lstrip_length (s : str) : List.length (lstrip s) <= List.length s.
Proof.
  induction s as [|c t IH]; simpl; [lia|].
  destruct (is_space c); simpl; lia.
Qed.

Lemma lstrip_all_space (s : str) :
  forallb is_space s = true -> lstrip s = [].
Proof.
  induction s as [|c t IH]; simpl; [reflexivity|].
  destruct (is_space c); simpl; [exact IH | discriminate].
Qed.

Lemma lstrip_nil_all_space (s : str) :
  lstrip s = [] -> forallb is_space s = true.
Proof.
  induction s as [|c t IH]; simpl; [reflexivity|].
  destruct (is_space c); simpl; [exact IH | discriminate].
Qed.

Lemma lstrip_head (s : str) (c : ascii) (t : str) :
  lstrip s = c :: t -> is_space c = false.
Proof.
  induction s as [|d u IH]; simpl; [discriminate|].
  destruct (is_space d) eqn:E; [exact IH|].
  intros H; injection H as -> _. exact E.
Qed.

Lemma lstrip_fixed (c : ascii) (t : str) :
  is_space c = false -> lstrip (c :: t) = c :: t.
Proof. intros H; simpl; rewrite H; reflexivity. Qed.

Lemma lstrip_idem (s : str) : lstrip (lstrip s) = lstrip s.
Proof.
  destruct (lstrip s) as [|c t] eqn:E; [reflexivity|].
  apply lstrip_fixed. exact (lstrip_head _ _ _ E).
Qed.

Lemma lstrip_app (a b : str) :
  lstrip (a ++ b) = if forallb is_space a then lstrip b else lstrip a ++ b.
Proof.
  induction a as [|c t IH]; simpl; [reflexivity|].
  destruct (is_space c); simpl; [exact IH | reflexivity].
Qed.

Lemma rstrip_nil : rstrip [] = [].
Proof. reflexivity. Qed.

Lemma rstrip_cons (c : ascii) (t : str) :
  rstrip (c :: t) =
  match rstrip t with
  | [] => if is_space c then [] else [c]
  | r => c :: r
  end.
Proof.
  unfold rstrip; simpl rev. rewrite lstrip_app.
  destruct (forallb is_space (rev t)) eqn:E.
  - rewrite (lstrip_all_space _ E). simpl.
    destruct (is_space c); reflexivity.
  - destruct (lstrip (rev t)) as [|d u] eqn:L.
    + rewrite (lstrip_nil_all_space _ L) in E. discriminate.
    + rewrite rev_app_distr. simpl.
      destruct (rev u ++ [d]) eqn:R; [|reflexivity].
      destruct (rev u); discriminate.
Qed.

Lemma rstrip_length (s : str) : List.length (rstrip s) <= List.length s.
Proof.
  unfold rstrip. rewrite length_rev.
  etransitivity; [apply lstrip_length|]. rewrite length_rev. lia.
Qed.

Lemma rstrip_idem (s : str) : rstrip (rstrip s) = rstrip s.
Proof. unfold rstrip. rewrite rev_involutive, lstrip_idem. reflexivity. Qed.

Lemma forallb_rev' (f : ascii -> bool) (l : str) :
  forallb f (rev l) = forallb f l.
Proof.
  induction l as [|c t IH]; simpl; [reflexivity|].
  rewrite forallb_app, IH. simpl. rewrite andb_true_r. apply andb_comm.
Qed.

Lemma rstrip_app_space (u ws : str) :
  forallb is_space ws = true -> rstrip (u ++ ws) = rstrip u.
Proof.
  intros H. unfold rstrip. rewrite rev_app_distr, lstrip_app.
  rewrite forallb_rev', H. reflexivity.
Qed.

Lemma rstrip_snoc (u : str) (c : ascii) :
  is_space c = false -> rstrip (u ++ [c]) = u ++ [c].
Proof.
  intros H. unfold rstrip. rewrite rev_app_distr. simpl.
  rewrite H. simpl. rewrite rev_involutive. reflexivity.
Qed.

Lemma strip_length (s : str) : List.length (strip s) <= List.length s.
Proof.
  unfold strip. etransitivity; [apply rstrip_length | apply lstrip_length].
Qed.

Lemma rstrip_strip (s : str) : rstrip (strip s) = strip s.
Proof. unfold strip. apply rstrip_idem. Qed.

Lemma lstrip_rstrip_fixed (u : str) :
  lstrip u = u -> lstrip (rstrip u) = rstrip u.
Proof.
  destruct u as [|c t]; [reflexivity|]. intros H.
  assert (E : is_space c = false) by exact (lstrip_head _ _ _ H).
  rewrite rstrip_cons. destruct (rstrip t); rewrite ?E; apply lstrip_fixed, E.
Qed.

Lemma lstrip_strip (s : str) : lstrip (strip s) = strip s.
Proof. unfold strip. apply lstrip_rstrip_fixed, lstrip_idem. Qed.

Lemma strip_fixed (y : str) : lstrip y = y -> rstrip y = y -> strip y = y.
Proof. intros L R. unfold strip. rewrite L. exact R. Qed.

Lemma strip_prefix_app (p r : str) : strip_prefix p (p ++ r) = Some r.
Proof.
  induction p as [|a p IH]; simpl; [reflexivity|].
  rewrite Ascii.eqb_refl. exact IH.
Qed.

Lemma strip_prefix_some (p s r : str) :
  strip_prefix p s = Some r -> s = p ++ r.
Proof.
  revert s; induction p as [|a p IH]; intros s; simpl.
  - intros H; injection H as ->. reflexivity.
  - destruct s as [|b s]; [discriminate|].
    destruct (Ascii.eqb_spec a b) as [->|]; [|discriminate].
    intros H. rewrite (IH _ H). reflexivity.
Qed.

Lemma startswith_app (p r : str) : startswith p (p ++ r) = true.
Proof. unfold startswith. rewrite strip_prefix_app. reflexivity. Qed.

Lemma contains_app (p a b : str) : contains p (a ++ p ++ b) = true.
Proof.
  induction a as [|c a IH].
  - simpl app. destruct (p ++ b) eqn:E; simpl; rewrite <- ?E;
      rewrite startswith_app; reflexivity.
  - simpl. rewrite IH. apply orb_true_r.
Qed.

Lemma contains_split (p s : str) :
  contains p s = true -> exists a b, s = a ++ p ++ b.
Proof.
  induction s as [|c t IH]; simpl.
  - rewrite orb_false_r. unfold startswith.
    destruct (strip_prefix p []) as [r|] eqn:E; [|discriminate].
    intros _. exists [], r. exact (strip_prefix_some _ _ _ E).
  - unfold startswith at 1.
    destruct (strip_prefix p (c :: t)) as [r|] eqn:E.
    + intros _. exists [], r. exact (strip_prefix_some _ _ _ E).
    + simpl. intros H. destruct (IH H) as (a & b & ->).
      exists (c :: a), b. reflexivity.
Qed.

Lemma contains_false_suffix (p a b : str) :
  contains p (a ++ b) = false -> strip_prefix p b = None.
Proof.
  induction a as [|c a IH]; simpl.
  - destruct b; simpl; unfold startswith;
      destruct (strip_prefix p _); simpl; try discriminate; reflexivity.
  - intros H. apply orb_false_iff in H. apply IH, H.
Qed.

Lemma endswith_app (a p : str) : endswith p (a ++ p) = true.
Proof. unfold endswith. rewrite rev_app_distr. apply startswith_app. Qed.

Lemma endswith_split (p s : str) :
  endswith p s = true -> exists a, s = a ++ p.
Proof.
  unfold endswith, startswith.
  destruct (strip_prefix (rev p) (rev s)) as [r|] eqn:E; [|discriminate].
  intros _. exists (rev r). apply strip_prefix_some in E.
  apply (f_equal (@rev _)) in E.
  rewrite rev_involutive, rev_app_distr, rev_involutive in E. exact E.
Qed.

Lemma contains_app_l (p x y : str) :
  contains p x = true -> contains p (x ++ y) = true.
Proof.
  intros H. destruct (contains_split _ _ H) as (a & b & ->).
  rewrite <- !app_assoc. apply contains_app.
Qed.

Lemma contains_app_r (p x y : str) :
  contains p y = true -> contains p (x ++ y) = true.
Proof.
  intros H. destruct (contains_split _ _ H) as (a & b & ->).
  rewrite app_assoc. apply contains_app.
Qed.

Lemma contains_join (p sep x : str) (l : list str) :
  In x l -> contains p x = true -> contains p (join sep l) = true.
Proof.
  intros I H. induction l as [|y t IH]; [contradiction|].
  destruct I as [->|I].
  - destruct t; simpl; [exact H | apply contains_app_l, H].
  - specialize (IH I). destruct t as [|z t]; [contradiction|].
    change (join sep (y :: z :: t)) with (y ++ sep ++ join sep (z :: t)).
    apply contains_app_r, contains_app_r, IH.
Qed.

Lemma lower_app (a b : str) : lower (a ++ b) = lower a ++ lower b.
Proof. apply map_app. Qed.

End StrFacts.

(** ** Substitution *)

Section ReFacts.

Lemma re_sub_del_cons (m : str -> option str) (c : ascii) (t : str) :
  re_sub_del m (c :: t) =
  match m (c :: t) with
  | Some r =>
      if lt_dec (List.length r) (S (List.length t)) then re_sub_del m r
      else c :: re_sub_del m t
  | None => c :: re_sub_del m t
  end.
Proof.
  simp re_sub_del. destruct (m (c :: t)); simpl; [|reflexivity].
  destruct lt_dec; reflexivity.
Qed.

(** Deleting matches never makes the text longer. *)
Lemma re_sub_del_length (m : str -> option str) (s : str) :
  List.length (re_sub_del m s) <= List.length s.
Proof.
  remember (List.length s) as n eqn:E. revert s E.
  induction n as [n IH] using lt_wf_ind. intros s ->.
  destruct s as [|c t]; [simp re_sub_del; simpl; lia|].
  rewrite re_sub_del_cons.
  destruct (m (c :: t)) as [r|].
  - destruct lt_dec as [L|L]; simpl in *.
    + specialize (IH _ L r eq_refl). lia.
    + specialize (IH (List.length t) (Nat.lt_succ_diag_r _) t eq_refl). lia.
  - simpl. specialize (IH (List.length t) (Nat.lt_succ_diag_r _) t eq_refl). lia.
Qed.

(** Where the pattern matches at no position, nothing is deleted. *)
Lemma re_sub_del_no_match (m : str -> option str) (s : str) :
  (forall a b, s = a ++ b -> m b = None) -> re_sub_del m s = s.
Proof.
  induction s as [|c t IH]; intros H; [simp re_sub_del; reflexivity|].
  rewrite re_sub_del_cons, (H [] (c :: t) eq_refl). f_equal.
  apply IH. intros a b ->. exact (H (c :: a) b eq_refl).
Qed.

(** A back quote is no white space, so white space stops at a fence. *)
Lemma lstrip_fence_app (r b : str) :
  lstrip (r ++ sql_fence ++ b) = lstrip r ++ sql_fence ++ b.
Proof.
  rewrite lstrip_app. destruct (forallb is_space r) eqn:E.
  - rewrite (lstrip_all_space _ E). reflexivity.
  - reflexivity.
Qed.

Lemma match_sql_fence_shorter (s r : str) :
  match_sql_fence s = Some r -> List.length r < List.length s.
Proof.
  unfold match_sql_fence.
  destruct (strip_prefix sql_fence s) as [u|] eqn:E; [|discriminate].
  intros H; injection H as <-. rewrite (strip_prefix_some _ _ _ E).
  rewrite length_app. pose proof (lstrip_length u). simpl. lia.
Qed.

(** Two occurrences of the opening fence cannot overlap: a text that does
    not start with the fence still does not when a fence is put after it. *)
Lemma sql_fence_no_overlap (c : ascii) (a b : str) :
  strip_prefix sql_fence (c :: a) = None ->
  strip_prefix sql_fence ((c :: a) ++ sql_fence ++ b) = None.
Proof.
  unfold sql_fence, lit.
  destruct a as [|c2 [|c3 [|c4 [|c5 [|c6 a]]]]]; cbn -[Ascii.eqb];
    repeat (match goal with
            | |- context [Ascii.eqb ?x ?y] =>
                destruct (Ascii.eqb_spec x y); try subst; cbn -[Ascii.eqb]
            end); try reflexivity; try discriminate; try congruence.
Qed.

(** Every occurrence of the opening fence is deleted with the white space
    after it, and the texts on its two sides are treated on their own. *)
Lemma remove_sql_fence_at (a b : str) :
  re_sub_del match_sql_fence (a ++ sql_fence ++ b) =
  re_sub_del match_sql_fence a ++ re_sub_del match_sql_fence (lstrip b).
Proof.
  remember (List.length a) as n eqn:E. revert a E.
  induction n as [n IH] using lt_wf_ind. intros a ->.
  destruct a as [|c a].
  - simp re_sub_del. change ([] ++ sql_fence ++ b) with (sql_fence ++ b).
    assert (M : match_sql_fence (sql_fence ++ b) = Some (lstrip b)).
    { unfold match_sql_fence. rewrite strip_prefix_app. reflexivity. }
    pose proof (match_sql_fence_shorter _ _ M) as L.
    change (sql_fence ++ b) with (ascii_of_nat 96 :: tl sql_fence ++ b) in *.
    rewrite re_sub_del_cons, M.
    destruct lt_dec as [_|N]; [reflexivity|]. simpl in L, N. lia.
  - change ((c :: a) ++ sql_fence ++ b) with (c :: a ++ sql_fence ++ b).
    rewrite !re_sub_del_cons.
    destruct (strip_prefix sql_fence (c :: a)) as [r|] eqn:P.
    + pose proof (strip_prefix_some _ _ _ P) as Ea.
      assert (Ma : match_sql_fence (c :: a) = Some (lstrip r)).
      { unfold match_sql_fence. rewrite P. reflexivity. }
      assert (Mab : match_sql_fence (c :: a ++ sql_fence ++ b)
                    = Some (lstrip r ++ sql_fence ++ b)).
      { change (c :: a ++ sql_fence ++ b) with ((c :: a) ++ sql_fence ++ b).
        unfold match_sql_fence.
        rewrite Ea, <- app_assoc, strip_prefix_app, lstrip_fence_app.
        reflexivity. }
      rewrite Ma, Mab.
      assert (Lr : List.length (lstrip r) < S (List.length a)).
      { pose proof (lstrip_length r). apply (f_equal (@List.length _)) in Ea.
        rewrite length_app in Ea. simpl in Ea. lia. }
      destruct lt_dec as [_|N];
        [|exfalso; apply N; rewrite !length_app; lia].
      destruct lt_dec as [_|N]; [|exfalso; apply N; exact Lr].
      exact (IH _ Lr (lstrip r) eq_refl).
    + assert (Ma : match_sql_fence (c :: a) = None).
      { unfold match_sql_fence. rewrite P. reflexivity. }
      assert (Mab : match_sql_fence (c :: a ++ sql_fence ++ b) = None).
      { apply sql_fence_no_overlap with (b := b) in P.
        change (c :: a ++ sql_fence ++ b) with ((c :: a) ++ sql_fence ++ b).
        unfold match_sql_fence. rewrite P. reflexivity. }
      rewrite Ma, Mab. simpl. f_equal.
      exact (IH _ (Nat.lt_succ_diag_r _) a eq_refl).
Qed.

(** [\s*$] matches exactly a run of white space that reaches the end of the
    text, and then takes all of it. *)
Lemma match_ws_dollar_spec (r : str) :
  match_ws_dollar r = if forallb is_space r then Some [] else None.
Proof.
  induction r as [|c t IH]; [reflexivity|].
  simpl match_ws_dollar. simpl forallb.
  destruct (is_space c) eqn:C; simpl.
  - rewrite IH. destruct (forallb is_space t) eqn:T; [reflexivity|].
    destruct t as [|d u]; [discriminate|reflexivity].
  - destruct t as [|d u]; [|reflexivity].
    destruct (Ascii.eqb_spec c (ascii_of_nat 10)) as [->|]; [|reflexivity].
    discriminate.
Qed.

Lemma match_trailing_fence_some (s r : str) :
  match_trailing_fence s = Some r ->
  r = [] /\ exists ws, s = fence ++ ws /\ forallb is_space ws = true.
Proof.
  unfold match_trailing_fence.
  destruct (strip_prefix fence s) as [u|] eqn:P; [|discriminate].
  rewrite match_ws_dollar_spec.
  destruct (forallb is_space u) eqn:U; [|discriminate].
  intros H; injection H as <-. split; [reflexivity|].
  exists u. split; [exact (strip_prefix_some _ _ _ P) | exact U].
Qed.

Lemma fence_not_space (u ws : str) :
  forallb is_space (u ++ fence ++ ws) = false.
Proof.
  rewrite !forallb_app. apply andb_false_intro2. reflexivity.
Qed.

(** One fence at the end of the text, possibly followed by white space, is
    deleted with that white space; what stands before it stays. *)
Lemma remove_trailing_fence_at (p ws : str) :
  forallb is_space ws = true ->
  re_sub_del match_trailing_fence (p ++ fence ++ ws) = p.
Proof.
  intros W. induction p as [|c p IH].
  - change ([] ++ fence ++ ws) with (ascii_of_nat 96 :: tl fence ++ ws).
    rewrite re_sub_del_cons.
    assert (M : match_trailing_fence (ascii_of_nat 96 :: tl fence ++ ws)
                = Some []).
    { change (ascii_of_nat 96 :: tl fence ++ ws) with (fence ++ ws).
      unfold match_trailing_fence.
      rewrite strip_prefix_app, match_ws_dollar_spec, W. reflexivity. }
    rewrite M. destruct lt_dec as [_|N]; [simp re_sub_del; reflexivity|].
    simpl in N. lia.
  - change ((c :: p) ++ fence ++ ws) with (c :: p ++ fence ++ ws).
    rewrite re_sub_del_cons.
    destruct (match_trailing_fence (c :: p ++ fence ++ ws)) as [r|] eqn:M.
    + exfalso. apply match_trailing_fence_some in M.
      destruct M as (_ & u & E & U).
      assert (F : forallb is_space u = false); [|congruence].
      destruct p as [|c2 [|c3 p]]; inversion E; subst;
        solve [reflexivity | apply fence_not_space].
    + f_equal. exact IH.
Qed.

Lemma remove_trailing_fence_none (y : str) :
  (forall p ws, forallb is_space ws = true -> y <> p ++ fence ++ ws) ->
  re_sub_del match_trailing_fence y = y.
Proof.
  intros H. apply re_sub_del_no_match. intros a b ->.
  destruct (match_trailing_fence b) as [r|] eqn:M; [|reflexivity].
  apply match_trailing_fence_some in M. destruct M as (_ & ws & -> & W).
  exfalso. exact (H a ws W eq_refl).
Qed.

End ReFacts.

(** ** [clean_sql] *)

Section CleanSql.

Lemma remove_sql_fence_none (y : str) :
  contains sql_fence y = false -> re_sub_del match_sql_fence y = y.
Proof.
  intros H. apply re_sub_del_no_match. intros a b ->.
  unfold match_sql_fence. rewrite (contains_false_suffix _ _ _ H).
  reflexivity.
Qed.

Lemma remove_sql_fence_shorter (y : str) :
  contains sql_fence y = true ->
  List.length (re_sub_del match_sql_fence y) < List.length y.
Proof.
  induction y as [|c t IH]; [discriminate|].
  intros H. rewrite re_sub_del_cons.
  destruct (match_sql_fence (c :: t)) as [r|] eqn:M.
  - pose proof (match_sql_fence_shorter _ _ M) as L.
    destruct lt_dec as [_|N]; [|contradiction].
    pose proof (re_sub_del_length match_sql_fence r). lia.
  - change (contains sql_fence (c :: t))
      with (startswith sql_fence (c :: t) || contains sql_fence t) in H.
    unfold startswith in H. unfold match_sql_fence in M.
    destruct (strip_prefix sql_fence (c :: t)); [discriminate|].
    specialize (IH H). simpl. lia.
Qed.

Lemma clean_sql_length (x : str) : List.length (clean_sql x) <= List.length x.
Proof.
  unfold clean_sql.
  pose proof (strip_length
    (re_sub_del match_trailing_fence (re_sub_del match_sql_fence x))).
  pose proof (re_sub_del_length match_trailing_fence
    (re_sub_del match_sql_fence x)).
  pose proof (re_sub_del_length match_sql_fence x). lia.
Qed.

(** A text without white space at its ends, without opening fence and
    without fence at its end is left as it is. *)
Lemma clean_sql_fixed (y : str) :
  lstrip y = y -> rstrip y = y ->
  contains sql_fence y = false -> endswith fence y = false ->
  clean_sql y = y.
Proof.
  intros L R C E. unfold clean_sql.
  rewrite (remove_sql_fence_none _ C).
  rewrite remove_trailing_fence_none; [exact (strip_fixed _ L R)|].
  intros p ws W Ey.
  assert (Y : y = p ++ fence).
  { rewrite <- R, Ey, app_assoc, (rstrip_app_space _ _ W).
    change fence with (lit "``" ++ [ascii_of_nat 96]).
    rewrite app_assoc. apply rstrip_snoc. reflexivity. }
  rewrite Y, endswith_app in E. discriminate.
Qed.

End CleanSql.

(** ** The claims about [clean_sql] *)

(** C4, as stated, fails: sanitizing the text [SELECT 1 ``` ```] leaves a
    fence at its end, which a second pass removes. *)
Lemma clean_sql_not_idempotent :
  clean_sql (clean_sql (lit "SELECT 1 ``` ```"))
  <> clean_sql (lit "SELECT 1 ``` ```").
Proof. vm_compute. discriminate. Qed.

(** C4, amended: a second pass of [clean_sql] changes nothing exactly when
    the sanitized text holds no opening fence and does not end with a
    fence; and a text that is clean (no white space at its ends, no opening
    fence, no closing fence) is returned as it is. *)
Theorem clean_sql_idempotent_iff :
  (forall x : str,
     clean_sql (clean_sql x) = clean_sql x <->
     contains sql_fence (clean_sql x) = false
     /\ endswith fence (clean_sql x) = false)
  /\ (forall y : str,
        lstrip y = y -> rstrip y = y ->
        contains sql_fence y = false -> endswith fence y = false ->
        clean_sql y = y).
Proof.
  split; [|exact clean_sql_fixed].
  intros x. set (y := clean_sql x). split.
  - intros I.
    destruct (contains sql_fence y) eqn:C.
    + exfalso. pose proof (remove_sql_fence_shorter _ C) as S1.
      apply (f_equal (@List.length _)) in I. unfold clean_sql in I.
      pose proof (strip_length
        (re_sub_del match_trailing_fence (re_sub_del match_sql_fence y))).
      pose proof (re_sub_del_length match_trailing_fence
        (re_sub_del match_sql_fence y)). lia.
    + split; [reflexivity|].
      destruct (endswith fence y) eqn:E; [exfalso|reflexivity].
      destruct (endswith_split _ _ E) as (p & Ey).
      apply (f_equal (@List.length _)) in I. unfold clean_sql in I.
      rewrite (remove_sql_fence_none _ C) in I.
      rewrite Ey in I at 1.
      rewrite <- (app_nil_r fence) in I at 1.
      rewrite remove_trailing_fence_at in I by reflexivity.
      pose proof (strip_length p). rewrite Ey, length_app in I.
      simpl in I. lia.
  - intros [C E]. apply clean_sql_fixed; try assumption.
    + apply lstrip_strip.
    + apply rstrip_strip.
Qed.

Lemma clean_sql_idempotent_iff_witness :
  clean_sql (clean_sql (lit "```sql SELECT 1 ```"))
  = clean_sql (lit "```sql SELECT 1 ```")
  /\ clean_sql (lit "SELECT 1") = lit "SELECT 1".
Proof.
  split.
  - apply (proj1 clean_sql_idempotent_iff). split; reflexivity.
  - apply (proj2 clean_sql_idempotent_iff); reflexivity.
Defined.

(** C9: [clean_sql] deletes the opening fence wherever it occurs in the
    text, with the white space after it; it deletes one fence at the end of
    the text, with the white space after it, and no other; and its result
    has no white space at either end. *)
Theorem clean_sql_removes_fences :
  (forall a b : str,
     clean_sql (a ++ sql_fence ++ b) =
     strip (re_sub_del match_trailing_fence
              (re_sub_del match_sql_fence a
                 ++ re_sub_del match_sql_fence (lstrip b))))
  /\ (forall x p ws : str,
        forallb is_space ws = true ->
        re_sub_del match_sql_fence x = p ++ fence ++ ws ->
        clean_sql x = strip p)
  /\ (forall x : str,
        (forall p ws, forallb is_space ws = true ->
                      re_sub_del match_sql_fence x <> p ++ fence ++ ws) ->
        clean_sql x = strip (re_sub_del match_sql_fence x))
  /\ (forall x : str,
        lstrip (clean_sql x) = clean_sql x
        /\ rstrip (clean_sql x) = clean_sql x).
Proof.
  split; [|split; [|split]].
  - intros a b. unfold clean_sql. rewrite remove_sql_fence_at. reflexivity.
  - intros x p ws W E. unfold clean_sql.
    rewrite E, (remove_trailing_fence_at _ _ W). reflexivity.
  - intros x H. unfold clean_sql.
    rewrite (remove_trailing_fence_none _ H). reflexivity.
  - intros x. split; [apply lstrip_strip | apply rstrip_strip].
Qed.

Lemma clean_sql_removes_fences_witness :
  clean_sql (lit "SELECT 1 ``` ```  ") = lit "SELECT 1 ```"
  /\ clean_sql (lit "  SELECT 1  ") = lit "SELECT 1".
Proof.
  destruct clean_sql_removes_fences as (_ & One & None_ & _). split.
  - apply (One _ (lit "SELECT 1 ``` ") (lit "  ")); reflexivity.
  - rewrite None_; [reflexivity|].
    intros p ws W E.
    assert (C : contains fence (p ++ fence ++ ws) = true)
      by apply contains_app.
    rewrite <- E in C. vm_compute in C. discriminate.
Defined.

(** ** The claims about the prompt *)

(** C7: for every question and every attempt number from 1 to
    [MAX_RETRIES], the prompt contains the marker [attempt N of 3]. *)
Theorem enhance_prompt_attempt_marker (natural_query : str) (attempt : nat) :
  1 <= attempt <= MAX_RETRIES ->
  contains (lit "attempt " ++ str_of_nat attempt ++ lit " of 3")
           (enhance_prompt natural_query attempt) = true.
Proof.
  intros _.
  assert (T : contains (lit "attempt " ++ str_of_nat attempt ++ lit " of 3")
                (prompt_template natural_query attempt) = true).
  { unfold prompt_template, text.
    eapply contains_join; [do 11 right; left; reflexivity|].
    replace (lit "        This is attempt " ++ str_of_nat attempt
               ++ lit " of " ++ str_of_nat MAX_RETRIES ++ lit ".")
      with (lit "        This is "
              ++ (lit "attempt " ++ str_of_nat attempt ++ lit " of 3")
              ++ lit ".")
      by (rewrite <- !app_assoc; reflexivity).
    apply contains_app. }
  unfold enhance_prompt.
  destruct (contains (lit "this month") (lower natural_query));
    [apply contains_app_l|]; exact T.
Qed.

Lemma enhance_prompt_attempt_marker_witness :
  contains (lit "attempt 2 of 3")
           (enhance_prompt (lit "How many orders this month?") 2) = true.
Proof.
  apply (enhance_prompt_attempt_marker (lit "How many orders this month?") 2).
  unfold MAX_RETRIES. lia.
Defined.

(** C8, as stated, fails in its second half: the question
    [This month, how many orders were placed?] does not contain the text
    [this month], and the note is added all the same. *)
Lemma this_month_note_without_phrase :
  contains (lit "this month") (lit "This month, how many orders were placed?") = false
  /\ enhance_prompt (lit "This month, how many orders were placed?") 1
     = prompt_template (lit "This month, how many orders were placed?") 1 ++ this_month_note
  /\ enhance_prompt (lit "This month, how many orders were placed?") 1
     <> prompt_template (lit "This month, how many orders were placed?") 1.
Proof.
  split; [reflexivity|]. split; [reflexivity|].
  intros H. apply (f_equal (@List.length _)) in H. vm_compute in H.
  discriminate.
Qed.

(** C8, amended: the note that pins this month to January 2024 is added
    exactly when the question, put in lower case, contains [this month];
    so it is added for every question that contains [this month] as
    written, as [How many orders this month?] does, and it is not added
    when the question does not contain the phrase in any letter case. *)
Theorem this_month_note_iff (natural_query : str) (attempt : nat) :
  (contains (lit "this month") natural_query = true ->
   enhance_prompt natural_query attempt
   = prompt_template natural_query attempt ++ this_month_note)
  /\ (contains (lit "this month") (lower natural_query) = true ->
      enhance_prompt natural_query attempt
      = prompt_template natural_query attempt ++ this_month_note)
  /\ (contains (lit "this month") (lower natural_query) = false ->
      enhance_prompt natural_query attempt
      = prompt_template natural_query attempt)
  /\ contains (lit "January 2024") this_month_note = true.
Proof.
  unfold enhance_prompt. split; [|split; [|split]].
  - intros H. destruct (contains_split _ _ H) as (a & b & ->).
    rewrite !lower_app.
    change (lower (lit "this month")) with (lit "this month").
    rewrite contains_app. reflexivity.
  - intros ->. reflexivity.
  - intros ->. reflexivity.
  - reflexivity.
Qed.

Lemma this_month_note_iff_witness :
  enhance_prompt (lit "How many orders this month?") 1
  = prompt_template (lit "How many orders this month?") 1 ++ this_month_note
  /\ enhance_prompt (lit "How many orders in total?") 1
     = prompt_template (lit "How many orders in total?") 1.
Proof.
  split.
  - apply (proj1 (this_month_note_iff (lit "How many orders this month?") 1)).
    reflexivity.
  - apply (proj1 (proj2 (proj2
      (this_month_note_iff (lit "How many orders in total?") 1)))).
    reflexivity.
Defined.

(** ** Rules for computations *)

Section RunRules.

Context {A B : Type} (P : event -> Prop).

Lemma spec_ret (a : A) (Q : result A -> Prop) :
  Q (Ret a) -> spec P (ret a) Q.
Proof.
  intros H t. exists []. simpl. rewrite app_nil_r. auto.
Qed.

Lemma spec_raise (e : exn) (Q : result A -> Prop) :
  Q (Raise e) -> spec P (raise e) Q.
Proof.
  intros H t. exists []. simpl. rewrite app_nil_r. auto.
Qed.

Lemma spec_weaken (c : M A) (Q Q' : result A -> Prop) :
  spec P c Q -> (forall r, Q r -> Q' r) -> spec P c Q'.
Proof.
  intros H W t. destruct (H t) as (evs & E & F & HQ).
  exists evs. auto.
Qed.

Lemma spec_bind (c : M A) (k : A -> M B)
    (Q1 : result A -> Prop) (Q : result B -> Prop) :
  spec P c Q1 ->
  (forall a, Q1 (Ret a) -> spec P (k a) Q) ->
  (forall e, Q1 (Raise e) -> Q (Raise e)) ->
  spec P (bind c k) Q.
Proof.
  intros Hc Hk He t. destruct (Hc t) as (evs & E & F & HQ).
  unfold bind. destruct (c t) as [[a|e] t']; simpl in *; subst t'.
  - destruct (Hk a HQ (t ++ evs)) as (evs' & E' & F' & HQ').
    exists (evs ++ evs'). rewrite E', app_assoc.
    split; [reflexivity|]. split; [apply Forall_app; auto | exact HQ'].
  - exists evs. auto.
Qed.

Lemma spec_try (c : M A) (h : exn -> M A) (Q1 Q : result A -> Prop) :
  spec P c Q1 ->
  (forall a, Q1 (Ret a) -> Q (Ret a)) ->
  (forall e, Q1 (Raise e) -> spec P (h e) Q) ->
  spec P (try_except c h) Q.
Proof.
  intros Hc Hr Hh t. destruct (Hc t) as (evs & E & F & HQ).
  unfold try_except. destruct (c t) as [[a|e] t']; simpl in *; subst t'.
  - exists evs. auto.
  - destruct (Hh e HQ (t ++ evs)) as (evs' & E' & F' & HQ').
    exists (evs ++ evs'). rewrite E', app_assoc.
    split; [reflexivity|]. split; [apply Forall_app; auto | exact HQ'].
Qed.

End RunRules.

Section RunRules2.

Context (P : event -> Prop).

Lemma spec_emit (e : event) (Q : result unit -> Prop) :
  P e -> Q (Ret tt) -> spec P (emit e) Q.
Proof.
  intros He H t. exists [e]. simpl. auto.
Qed.

Lemma spec_get_trace (Q : result trace -> Prop) :
  (forall t, Q (Ret t)) -> spec P get_trace Q.
Proof.
  intros H t. exists []. simpl. rewrite app_nil_r. auto.
Qed.

Lemma spec_of_outcome {A} (o : outcome A) (Q : result A -> Prop) :
  (forall a, o = Ok a -> Q (Ret a)) ->
  (forall e, o = Fail e -> Q (Raise e)) ->
  spec P (of_outcome o) Q.
Proof.
  intros H1 H2. destruct o; simpl; [apply spec_ret | apply spec_raise]; auto.
Qed.

(** A [with] block returns what its body returns, or raises. *)
Lemma spec_with {R A} (acquire : M R) (exit_ : R -> option exn -> M unit)
    (body : R -> M A) (Q : result A -> Prop) :
  spec P acquire (fun _ => True) ->
  (forall r, spec P (body r) (fun x => forall a, x = Ret a -> Q (Ret a))) ->
  (forall r o, spec P (exit_ r o) (fun _ => True)) ->
  (forall e, Q (Raise e)) ->
  spec P (with_ acquire exit_ body) Q.
Proof.
  intros Ha Hb Hx Hr. unfold with_.
  eapply spec_bind; [exact Ha | | intros e _; apply Hr].
  intros r _ t. destruct (Hb r t) as (evs & E & F & HQ).
  destruct (body r t) as [[a|e] t'] eqn:Eb; simpl in *; subst t'.
  - destruct (spec_bind P (exit_ r None) (fun _ => ret a)
                (fun _ => True) Q (Hx r None)
                (fun _ _ => spec_ret P a Q (HQ a eq_refl))
                (fun e _ => Hr e) (t ++ evs)) as (evs' & E' & F' & HQ').
    exists (evs ++ evs'). rewrite E', app_assoc.
    split; [reflexivity|]. split; [apply Forall_app; auto | exact HQ'].
  - destruct (spec_bind P (exit_ r (Some e)) (fun _ => raise e)
                (fun _ => True) Q (Hx r (Some e))
                (fun _ _ => spec_raise P e Q (Hr e))
                (fun e' _ => Hr e') (t ++ evs)) as (evs' & E' & F' & HQ').
    exists (evs ++ evs'). rewrite E', app_assoc.
    split; [reflexivity|]. split; [apply Forall_app; auto | exact HQ'].
Qed.

End RunRules2.

(** ** What each operation of the processor emits and returns *)

Ltac spec_step :=
  match goal with
  | |- spec _ (bind _ _) (fun _ => True) =>
      eapply spec_bind with (Q1 := fun _ => True); [ | intros ? _ | auto ]
  | |- spec _ (ret _) _ => apply spec_ret
  | |- spec _ (raise _) _ => apply spec_raise
  | |- spec _ (emit _) _ => apply spec_emit
  | |- spec _ get_trace _ => apply spec_get_trace
  | |- spec _ (of_outcome _) _ => apply spec_of_outcome
  | |- spec _ (match ?x with _ => _ end) _ => destruct x
  | |- spec _ (if ?x then _ else _) _ => destruct x
  end.

Ltac spec_auto := repeat (spec_step; auto).

Section Footprint.

Variable w : world.
Variable cfg : config.
Variable P : event -> Prop.

Hypothesis P_chat : forall model messages, P (EvChat model messages).
Hypothesis P_db : forall e, is_db e = true -> P e.
Hypothesis P_sleep : forall seconds, P (EvSleep seconds).

Lemma chat_create_spec (messages : list message) :
  spec P (chat_create w messages) (fun _ => True).
Proof. unfold chat_create. spec_auto. Qed.

Lemma enhance_query_spec (natural_query : str) (attempt : nat) :
  spec P (enhance_query w natural_query attempt) (fun _ => True).
Proof.
  unfold enhance_query.
  eapply spec_bind with (Q1 := fun _ => True);
    [apply chat_create_spec | intros; spec_auto | auto].
Qed.

Lemma connect_spec : spec P (Psycopg2.connect w cfg) (fun _ => True).
Proof. unfold Psycopg2.connect. spec_auto. Qed.

Lemma connection_exit_spec (h : nat) (exc : option exn) :
  spec P (Psycopg2.connection_exit w cfg h exc) (fun _ => True).
Proof. unfold Psycopg2.connection_exit. spec_auto. Qed.

Lemma cursor_spec (h : nat) :
  spec P (Psycopg2.cursor w cfg h) (fun _ => True).
Proof. unfold Psycopg2.cursor. spec_auto. Qed.

Lemma cursor_exit_spec (h : nat) (exc : option exn) :
  spec P (Psycopg2.cursor_exit h exc) (fun _ => True).
Proof. unfold Psycopg2.cursor_exit. spec_auto. Qed.

Lemma execute_query_spec (sql : str) :
  spec P (execute_query w cfg sql) (fun _ => True).
Proof.
  unfold execute_query.
  eapply spec_try with (Q1 := fun _ => True); [ | auto | intros; spec_auto ].
  apply spec_with; auto using connect_spec, connection_exit_spec.
  intros conn. eapply spec_weaken with (Q := fun _ => True); [ | auto ].
  apply spec_with; auto using cursor_spec, cursor_exit_spec.
  intros cur. eapply spec_weaken with (Q := fun _ => True); [ | auto ].
  unfold Psycopg2.execute, Psycopg2.fetchall, columns_of. spec_auto.
Qed.

Lemma generate_insights_spec (results : list dict) (query : str) :
  P (EvInsights results query) ->
  spec P (generate_insights w results query) (fun _ => True).
Proof.
  intros H. unfold generate_insights.
  eapply spec_bind with (Q1 := fun _ => True);
    [spec_auto | intros; apply chat_create_spec | auto].
Qed.

Lemma now_isoformat_spec : spec P (now_isoformat w) returns.
Proof.
  unfold now_isoformat.
  eapply spec_bind with (Q1 := returns);
    [apply spec_get_trace; intros; exact I
    | intros; apply spec_ret; exact I
    | intros e []].
Qed.

Hypothesis P_insights :
  forall results query, results <> [] -> P (EvInsights results query).

Lemma attempt_query_execution_spec (natural_query : str) (attempt : nat) :
  1 <= attempt <= MAX_RETRIES ->
  spec P (attempt_query_execution w cfg natural_query attempt)
       (attempt_post natural_query).
Proof.
  intros B. unfold attempt_query_execution.
  eapply spec_try with (Q1 := attempt_post natural_query); [ | auto | ].
  - eapply spec_bind with (Q1 := fun _ => True);
      [apply enhance_query_spec | intros sql _ | simpl; auto].
    eapply spec_bind with (Q1 := fun _ => True);
      [apply execute_query_spec | intros results _ | simpl; auto].
    destruct results as [|r rs]; [apply spec_raise; simpl; auto|].
    eapply spec_bind with (Q1 := fun _ => True);
      [apply generate_insights_spec, P_insights; discriminate
      | intros insights _ | simpl; auto].
    eapply spec_bind with (Q1 := returns);
      [apply now_isoformat_spec | intros timestamp _ | simpl; auto].
    apply spec_ret. simpl.
    exists sql, (r :: rs), insights, attempt, timestamp.
    split; [reflexivity|]. split; [discriminate | exact B].
  - intros e _. unfold sleep.
    destruct (attempt <? MAX_RETRIES).
    + eapply spec_bind with (Q1 := fun _ => True);
        [spec_auto | intros; apply spec_ret; simpl; auto | simpl; auto].
    + apply spec_raise. simpl. auto.
Qed.

Lemma attempts_spec (natural_query : str) (range : list nat) :
  Forall (fun attempt => 1 <= attempt <= MAX_RETRIES) range ->
  forall last_error,
    spec P (attempts w cfg natural_query range last_error)
         (attempts_post natural_query).
Proof.
  induction 1 as [|attempt rest B _ IH]; intros last_error; simpl attempts.
  - apply spec_ret. exact I.
  - eapply spec_bind with
      (Q1 := fun r => match r with
                      | Ret (inl (Some d)) => is_success natural_query d
                      | Ret _ => True
                      | Raise _ => False
                      end).
    + eapply spec_try with
        (Q1 := fun r => match r with
                        | Ret (inl (Some d)) => is_success natural_query d
                        | _ => True
                        end).
      * eapply spec_bind; [exact (attempt_query_execution_spec _ _ B) | | ].
        -- intros [d|] H; apply spec_ret; simpl; auto.
        -- simpl; auto.
      * intros [[d|]|e] H; simpl; auto.
      * intros e _. apply spec_ret. exact I.
    + intros [[d|]|e] H.
      * destruct (truthy_result (Some d)); [apply spec_ret; exact H|].
        apply IH.
      * apply IH.
      * apply IH.
    + intros e [].
Qed.

(** [process_query] always returns, and what it returns is a success
    record or a failure record. *)
Lemma process_query_spec (natural_query : str) :
  spec P (process_query w cfg natural_query)
       (fun r => exists d, r = Ret d
                 /\ (is_success natural_query d
                     \/ is_failure natural_query d)).
Proof.
  unfold process_query.
  eapply spec_try with
    (Q1 := fun r => match r with
                    | Ret d => is_success natural_query d
                               \/ is_failure natural_query d
                    | Raise _ => True
                    end).
  - destruct (negb _); [apply spec_raise; exact I|].
    destruct (negb _); [apply spec_raise; exact I|].
    eapply spec_bind;
      [apply attempts_spec with (natural_query := natural_query)
      | | intros e []].
    + repeat constructor; unfold MAX_RETRIES; lia.
    + intros [d|last_error] H.
      * apply spec_ret. left. exact H.
      * eapply spec_bind with (Q1 := returns);
          [apply now_isoformat_spec | intros timestamp _ | simpl; auto].
        apply spec_ret. right. eexists _, _. reflexivity.
  - intros d H. exists d. auto.
  - intros e _.
    eapply spec_bind with (Q1 := returns);
      [apply now_isoformat_spec | intros timestamp _ | intros e' []].
    apply spec_ret. eexists. split; [reflexivity|].
    right. eexists _, _. reflexivity.
Qed.

End Footprint.

(** ** The claims about the records and the insights *)

Lemma success_not_failure (natural_query : str) (d : dict) :
  is_success natural_query d -> is_failure natural_query d -> False.
Proof.
  intros (sql & results & insights & attempt & ts & -> & _) (msg & ts' & E).
  discriminate E.
Qed.

(** C6: whatever the services answer, [process_query] returns a record,
    and this record is a success record (query, sql, results, insights,
    attempt, timestamp; no error) or a failure record (error, the original
    question, timestamp; no sql, results or insights), never both. *)
Theorem process_query_returns_one_variant
    (w : world) (cfg : config) (natural_query : str) (t : trace) :
  exists d t',
    process_query w cfg natural_query t = (Ret d, t')
    /\ ((is_success natural_query d
         /\ ~ is_failure natural_query d
         /\ dict_get (lit "error") d = None)
        \/ (is_failure natural_query d
            /\ ~ is_success natural_query d
            /\ dict_get (lit "sql") d = None
            /\ dict_get (lit "results") d = None
            /\ dict_get (lit "insights") d = None)).
Proof.
  destruct (process_query_spec w cfg (fun _ => True)
              (fun _ _ => I) (fun _ _ => I) (fun _ => I) (fun _ _ _ => I)
              natural_query t) as (evs & E & _ & d & R & H).
  exists d, (t ++ evs). split.
  - destruct (process_query w cfg natural_query t) as [r t'].
    simpl in *. subst. reflexivity.
  - destruct H as [S|F].
    + left. split; [exact S|]. split.
      * intros F. exact (success_not_failure _ _ S F).
      * destruct S as (? & ? & ? & ? & ? & -> & _). reflexivity.
    + right. split; [exact F|]. split.
      * intros S. exact (success_not_failure _ _ S F).
      * destruct F as (? & ? & ->). repeat split; reflexivity.
Qed.

(** C10: in every run of [process_query], each entry into
    [generate_insights] has at least one row. *)
Theorem insights_never_on_empty_results
    (w : world) (cfg : config) (natural_query : str) :
  Forall insights_have_rows (snd (process_query w cfg natural_query [])).
Proof.
  assert (Hdb : forall e, is_db e = true -> insights_have_rows e).
  { intros [] H; simpl; auto; discriminate. }
  destruct (process_query_spec w cfg insights_have_rows
              (fun _ _ => I) Hdb (fun _ => I) (fun _ _ H => H)
              natural_query []) as (evs & E & F & _).
  rewrite E. exact F.
Qed.

(** ** Running the operations on given answers *)

(** Unfolding the operations of the driver and of the computations, up to
    the answers of the world. *)
Ltac run_unfold :=
  cbv [try_except with_ bind ret raise emit get_trace of_outcome
       Psycopg2.connect Psycopg2.cursor Psycopg2.execute Psycopg2.fetchall
       Psycopg2.connection_exit Psycopg2.cursor_exit columns_of
       description fetchall_r].

Section Runs.

Variable w : world.
Variable cfg : config.

Lemma count_app (p : event -> bool) (a b : trace) :
  count p (a ++ b) = count p a + count p b.
Proof. unfold count. rewrite filter_app, length_app. reflexivity. Qed.

Lemma chat_create_run (messages : list message) (t : trace) (s : str) :
  chat w (count is_chat t) gpt_model messages = Ok s ->
  chat_create w messages t = (Ret s, t ++ [EvChat gpt_model messages]).
Proof.
  intros H. unfold chat_create, bind, get_trace, emit. rewrite H. reflexivity.
Qed.

Lemma enhance_query_run (natural_query : str) (attempt : nat) (t : trace)
    (s : str) :
  chat w (count is_chat t) gpt_model
       (sql_messages (enhance_prompt natural_query attempt)) = Ok s ->
  enhance_query w natural_query attempt t
  = (Ret (clean_sql (strip s)),
     t ++ [EvChat gpt_model
             (sql_messages (enhance_prompt natural_query attempt))]).
Proof.
  intros H. unfold enhance_query, bind. rewrite (chat_create_run _ _ _ H).
  reflexivity.
Qed.

Lemma generate_insights_run (results : list dict) (query : str) (t : trace)
    (s : str) :
  chat w (count is_chat t) gpt_model
       (insight_messages (insight_prompt w results query)) = Ok s ->
  generate_insights w results query t
  = (Ret s,
     t ++ [EvInsights results query;
           EvChat gpt_model
             (insight_messages (insight_prompt w results query))]).
Proof.
  intros H. unfold generate_insights, bind, emit.
  rewrite chat_create_run with (s := s).
  - rewrite <- app_assoc. reflexivity.
  - rewrite count_app. simpl. rewrite Nat.add_0_r. exact H.
Qed.

Lemma execute_query_rows_run (sql : str) (t : trace) (columns : list str)
    (rows : list row) :
  answers_rows (database w (count is_connect t) cfg) sql columns rows ->
  execute_query w cfg sql t
  = (Ret (map (fun r : row => dict_of (zip columns r)) rows),
     t ++ rows_events (count is_connect t) sql).
Proof.
  intros (Hc & Hu & He & Hm).
  unfold execute_query. run_unfold.
  rewrite Hc. run_unfold. rewrite Hu. run_unfold.
  rewrite He. run_unfold. rewrite Hm. run_unfold.
  unfold rows_events. rewrite <- !app_assoc. reflexivity.
Qed.

Lemma execute_query_fails_run (sql : str) (t : trace) (msg : exn) :
  execution_fails (database w (count is_connect t) cfg) sql msg ->
  execute_query w cfg sql t
  = (Raise (lit "Database error: " ++ msg),
     t ++ failure_events (count is_connect t) sql).
Proof.
  intros (Hc & Hu & He & Hr).
  unfold execute_query. run_unfold.
  rewrite Hc. run_unfold. rewrite Hu. run_unfold.
  rewrite He. run_unfold. rewrite Hr. run_unfold.
  unfold failure_events. rewrite <- !app_assoc. reflexivity.
Qed.

(** One turn of the loop, by what the attempt did. *)
Lemma attempts_step_none (natural_query : str) (attempt : nat)
    (rest : list nat) (last_error : option exn) (t t' : trace) :
  attempt_query_execution w cfg natural_query attempt t = (Ret None, t') ->
  attempts w cfg natural_query (attempt :: rest) last_error t
  = attempts w cfg natural_query rest last_error t'.
Proof.
  intros H. cbn [attempts]. unfold bind at 1, try_except, bind at 1.
  rewrite H. reflexivity.
Qed.

Lemma attempts_step_raise (natural_query : str) (attempt : nat)
    (rest : list nat) (last_error : option exn) (e : exn) (t t' : trace) :
  attempt_query_execution w cfg natural_query attempt t = (Raise e, t') ->
  attempts w cfg natural_query (attempt :: rest) last_error t
  = attempts w cfg natural_query rest (Some e) t'.
Proof.
  intros H. cbn [attempts]. unfold bind at 1, try_except, bind at 1.
  rewrite H. reflexivity.
Qed.

Lemma attempts_step_some (natural_query : str) (attempt : nat)
    (rest : list nat) (last_error : option exn) (x : str * value) (d : dict)
    (t t' : trace) :
  attempt_query_execution w cfg natural_query attempt t
  = (Ret (Some (x :: d)), t') ->
  attempts w cfg natural_query (attempt :: rest) last_error t
  = (Ret (inl (x :: d)), t').
Proof.
  intros H. cbn [attempts]. unfold bind at 1, try_except, bind at 1.
  rewrite H. reflexivity.
Qed.

(** With a complete configuration [process_query] is its loop. *)
Lemma process_query_configured (natural_query : str) (t : trace) :
  configured cfg = true ->
  process_query w cfg natural_query t
  = match attempts w cfg natural_query (seq 1 MAX_RETRIES) None t with
    | (Ret (inl result), t') => (Ret result, t')
    | (Ret (inr last_error), t') =>
        (Ret (failure
                (lit "All " ++ str_of_nat MAX_RETRIES
                   ++ lit " attempts failed. Last error: "
                   ++ str_of_error last_error)
                natural_query (now w (List.length t'))), t')
    | (Raise e, t') =>
        (Ret (failure e natural_query (now w (List.length t'))), t')
    end.
Proof.
  unfold configured. intros H. apply andb_true_iff in H. destruct H as [H1 H2].
  unfold process_query. rewrite H1, H2. cbn [negb].
  unfold try_except, bind at 1.
  destruct (attempts w cfg natural_query (seq 1 MAX_RETRIES) None t)
    as [[[d|e]|e] t']; reflexivity.
Qed.

End Runs.

(** ** The claims about the retry loop *)

Section ZeroRows.

Variable w : world.
Variable cfg : config.

Hypothesis generation_succeeds :
  forall i model messages, exists s, chat w i model messages = Ok s.
Hypothesis no_rows :
  forall h sql, exists columns, answers_rows (database w h cfg) sql columns [].

(** An attempt that finds no row: one generation call, one connection, no
    entry into [generate_insights]; a pause unless it is the last one. *)
Lemma attempt_without_rows (natural_query : str) (attempt : nat) (t : trace) :
  exists evs,
    attempt_query_execution w cfg natural_query attempt t
    = (if attempt <? MAX_RETRIES then Ret None
       else Raise (lit "Query returned no results"),
       t ++ evs
         ++ (if attempt <? MAX_RETRIES then [EvSleep RETRY_DELAY] else []))
    /\ count is_chat evs = 1 /\ count is_connect evs = 1
    /\ count is_sleep evs = 0 /\ count is_insights evs = 0.
Proof.
  destruct (generation_succeeds (count is_chat t) gpt_model
              (sql_messages (enhance_prompt natural_query attempt)))
    as (s & Hs).
  set (sql := clean_sql (strip s)).
  set (t1 := t ++ [EvChat gpt_model
                     (sql_messages (enhance_prompt natural_query attempt))]).
  destruct (no_rows (count is_connect t1) sql) as (columns & Hrows).
  exists ([EvChat gpt_model
             (sql_messages (enhance_prompt natural_query attempt))]
            ++ rows_events (count is_connect t1) sql).
  split; [|repeat split; reflexivity].
  unfold attempt_query_execution, try_except, bind at 1.
  rewrite (enhance_query_run w natural_query attempt t s Hs).
  fold sql t1. unfold bind at 1.
  rewrite (execute_query_rows_run w cfg sql t1 columns [] Hrows).
  cbn [map]. unfold raise, sleep.
  destruct (attempt <? MAX_RETRIES); unfold bind, emit, ret, t1;
    rewrite <- ?app_assoc, ?app_nil_r; reflexivity.
Qed.

End ZeroRows.

(** C1: when every attempt's statement runs and yields no row,
    [process_query] makes exactly [MAX_RETRIES] attempts (three calls of the
    generation service, three connections), pauses twice, never enters
    [generate_insights], and returns the failure record with the error of
    the last attempt. *)
Theorem all_attempts_without_rows
    (w : world) (cfg : config) (natural_query : str) :
  configured cfg = true ->
  (forall i model messages, exists s, chat w i model messages = Ok s) ->
  (forall h sql, exists columns,
      answers_rows (database w h cfg) sql columns []) ->
  exists t,
    process_query w cfg natural_query []
    = (Ret (failure
              (lit "All 3 attempts failed. Last error: "
                 ++ lit "Query returned no results")
              natural_query (now w (List.length t))), t)
    /\ count is_chat t = MAX_RETRIES
    /\ count is_connect t = MAX_RETRIES
    /\ count is_sleep t = MAX_RETRIES - 1
    /\ Forall (fun e => is_sleep e = true -> e = EvSleep RETRY_DELAY) t
    /\ count is_insights t = 0.
Proof.
  intros Hcfg Hgen Hrows.
  rewrite (process_query_configured w cfg natural_query [] Hcfg).
  change (seq 1 MAX_RETRIES) with [1; 2; 3].
  destruct (attempt_without_rows w cfg Hgen Hrows natural_query 1 [])
    as (e1 & R1 & C1 & D1 & S1 & I1).
  cbn [Nat.ltb Nat.leb MAX_RETRIES] in R1.
  rewrite (attempts_step_none w cfg natural_query 1 [2; 3] None _ _ R1).
  destruct (attempt_without_rows w cfg Hgen Hrows natural_query 2
              ([] ++ e1 ++ [EvSleep RETRY_DELAY]))
    as (e2 & R2 & C2 & D2 & S2 & I2).
  cbn [Nat.ltb Nat.leb MAX_RETRIES] in R2.
  rewrite (attempts_step_none w cfg natural_query 2 [3] None _ _ R2).
  destruct (attempt_without_rows w cfg Hgen Hrows natural_query 3
              (([] ++ e1 ++ [EvSleep RETRY_DELAY])
                 ++ e2 ++ [EvSleep RETRY_DELAY]))
    as (e3 & R3 & C3 & D3 & S3 & I3).
  cbn [Nat.ltb Nat.leb MAX_RETRIES] in R3.
  rewrite (attempts_step_raise w cfg natural_query 3 [] None _ _ _ R3).
  cbn [attempts ret].
  eexists. split; [reflexivity|].
  rewrite !count_app, C1, C2, C3, D1, D2, D3, S1, S2, S3, I1, I2, I3.
  repeat split; try reflexivity.
  rewrite !Forall_app. repeat split;
    try (apply Forall_forall; intros e He Hs;
         exfalso;
         match goal with
         | S : count is_sleep ?l = 0, H : In e ?l |- _ =>
             unfold count in S;
             assert (In e (filter is_sleep l)) as F
               by (apply filter_In; auto);
             destruct (filter is_sleep l); [exact F | discriminate S]
         end);
    try (repeat constructor).
Qed.

Lemma all_attempts_without_rows_witness :
  exists t,
    process_query empty_world full_config (lit "How many orders this month?") []
    = (Ret (failure
              (lit "All 3 attempts failed. Last error: Query returned no results")
              (lit "How many orders this month?")
              (now empty_world (List.length t))), t)
    /\ count is_chat t = 3 /\ count is_sleep t = 2.
Proof.
  destruct (all_attempts_without_rows empty_world full_config
              (lit "How many orders this month?"))
    as (t & R & C & _ & S & _).
  - reflexivity.
  - intros. eexists. reflexivity.
  - intros. eexists. repeat split; reflexivity.
  - exists t. repeat split; assumption.
Defined.

Section OneAttempt.

Variable w : world.
Variable cfg : config.

Hypothesis generation_succeeds :
  forall i model messages, exists s, chat w i model messages = Ok s.

(** An attempt whose statement fails in the database. *)
Lemma attempt_database_error (natural_query : str) (attempt : nat)
    (t : trace) :
  (forall sql, exists msg,
      execution_fails (database w (count is_connect t) cfg) sql msg) ->
  exists evs msg,
    attempt_query_execution w cfg natural_query attempt t
    = (if attempt <? MAX_RETRIES then Ret None
       else Raise (lit "Database error: " ++ msg),
       t ++ evs
         ++ (if attempt <? MAX_RETRIES then [EvSleep RETRY_DELAY] else []))
    /\ count is_chat evs = 1 /\ count is_connect evs = 1
    /\ count is_sleep evs = 0 /\ count is_insights evs = 0.
Proof.
  intros Hdb.
  destruct (generation_succeeds (count is_chat t) gpt_model
              (sql_messages (enhance_prompt natural_query attempt)))
    as (s & Hs).
  set (sql := clean_sql (strip s)).
  set (ev := EvChat gpt_model
               (sql_messages (enhance_prompt natural_query attempt))).
  destruct (Hdb sql) as (msg & Hfail).
  assert (Hfail' : execution_fails
                     (database w (count is_connect (t ++ [ev])) cfg) sql msg).
  { rewrite count_app. simpl. rewrite Nat.add_0_r. exact Hfail. }
  exists ([ev] ++ failure_events (count is_connect (t ++ [ev])) sql), msg.
  split; [|repeat split; reflexivity].
  unfold attempt_query_execution, try_except, bind at 1.
  rewrite (enhance_query_run w natural_query attempt t s Hs).
  fold sql ev. unfold bind at 1.
  rewrite (execute_query_fails_run w cfg sql (t ++ [ev]) msg Hfail').
  unfold raise, sleep.
  destruct (attempt <? MAX_RETRIES); unfold bind, emit, ret;
    rewrite <- ?app_assoc, ?app_nil_r; reflexivity.
Qed.

(** An attempt whose statement yields rows and whose insights are
    written. *)
Lemma attempt_with_rows (natural_query : str) (attempt : nat) (t : trace)
    (n : nat) :
  (forall sql, exists columns rows,
      answers_rows (database w (count is_connect t) cfg) sql columns rows
      /\ List.length rows = S n) ->
  exists evs sql results insights timestamp,
    attempt_query_execution w cfg natural_query attempt t
    = (Ret (Some [ (lit "query", VStr natural_query);
                   (lit "sql", VStr sql);
                   (lit "results", VList (map VDict results));
                   (lit "insights", VStr insights);
                   (lit "attempt", VInt (Z.of_nat attempt));
                   (lit "timestamp", VStr timestamp) ]),
       t ++ evs)
    /\ List.length results = S n
    /\ count is_chat evs = 2 /\ count is_connect evs = 1
    /\ count is_sleep evs = 0 /\ count is_insights evs = 1
    /\ In (EvInsights results natural_query) evs.
Proof.
  intros Hdb.
  destruct (generation_succeeds (count is_chat t) gpt_model
              (sql_messages (enhance_prompt natural_query attempt)))
    as (s & Hs).
  set (sql := clean_sql (strip s)).
  set (ev := EvChat gpt_model
               (sql_messages (enhance_prompt natural_query attempt))).
  destruct (Hdb sql) as (columns & rows & Hrows & Hlen).
  assert (Hrows' : answers_rows
                     (database w (count is_connect (t ++ [ev])) cfg)
                     sql columns rows).
  { rewrite count_app. simpl. rewrite Nat.add_0_r. exact Hrows. }
  set (results := map (fun r : row => dict_of (zip columns r)) rows).
  set (t2 := (t ++ [ev]) ++ rows_events (count is_connect (t ++ [ev])) sql).
  destruct (generation_succeeds (count is_chat t2) gpt_model
              (insight_messages (insight_prompt w results natural_query)))
    as (insights & Hi).
  set (evs := [ev] ++ rows_events (count is_connect (t ++ [ev])) sql
                ++ [EvInsights results natural_query;
                    EvChat gpt_model
                      (insight_messages
                         (insight_prompt w results natural_query))]).
  exists evs, sql, results, insights, (now w (List.length (t ++ evs))).
  split; [|split; [|repeat split]].
  - unfold attempt_query_execution, try_except, bind at 1.
    rewrite (enhance_query_run w natural_query attempt t s Hs).
    fold sql ev. unfold bind at 1.
    rewrite (execute_query_rows_run w cfg sql (t ++ [ev]) columns rows Hrows').
    fold results t2.
    destruct results as [|r rs] eqn:Er.
    { destruct rows; [discriminate Hlen | discriminate Er]. }
    unfold bind at 1.
    rewrite (generate_insights_run w (r :: rs) natural_query t2 insights Hi).
    unfold bind, now_isoformat, get_trace, ret, t2, evs.
    rewrite <- !app_assoc. reflexivity.
  - unfold results. rewrite length_map. exact Hlen.
  - simpl. right. do 6 right. left. reflexivity.
Qed.

End OneAttempt.

(** C2: when the first attempt's statement fails in the database, the
    second one yields five rows and the insights are written,
    [process_query] returns the success record of attempt 2 with the five
    records, and [generate_insights] is entered exactly once, with these
    five records. *)
Theorem second_attempt_succeeds
    (w : world) (cfg : config) (natural_query : str) :
  configured cfg = true ->
  (forall i model messages, exists s, chat w i model messages = Ok s) ->
  (forall sql, exists msg, execution_fails (database w 0 cfg) sql msg) ->
  (forall sql, exists columns rows,
      answers_rows (database w 1 cfg) sql columns rows
      /\ List.length rows = 5) ->
  exists d t results,
    process_query w cfg natural_query [] = (Ret d, t)
    /\ is_success natural_query d
    /\ dict_get (lit "attempt") d = Some (VInt 2)
    /\ dict_get (lit "results") d = Some (VList (map VDict results))
    /\ List.length results = 5
    /\ count is_insights t = 1
    /\ In (EvInsights results natural_query) t
    /\ count is_sleep t = 1.
Proof.
  intros Hcfg Hgen Hdb0 Hdb1.
  rewrite (process_query_configured w cfg natural_query [] Hcfg).
  change (seq 1 MAX_RETRIES) with [1; 2; 3].
  destruct (attempt_database_error w cfg Hgen natural_query 1 [] Hdb0)
    as (e1 & msg & R1 & C1 & D1 & S1 & I1).
  cbn [Nat.ltb Nat.leb MAX_RETRIES] in R1.
  rewrite (attempts_step_none w cfg natural_query 1 [2; 3] None _ _ R1).
  assert (Hdb1' : forall sql, exists columns rows,
             answers_rows
               (database w
                  (count is_connect ([] ++ e1 ++ [EvSleep RETRY_DELAY])) cfg)
               sql columns rows
             /\ List.length rows = 5).
  { rewrite !count_app, D1. exact Hdb1. }
  destruct (attempt_with_rows w cfg Hgen natural_query 2
              ([] ++ e1 ++ [EvSleep RETRY_DELAY]) 4 Hdb1')
    as (e2 & sql & results & insights & ts & R2 & L2 & C2 & D2 & S2 & I2 & In2).
  rewrite (attempts_step_some w cfg natural_query 2 [3] None _ _ _ _ R2).
  eexists _, _, results. split; [reflexivity|].
  split.
  { exists sql, results, insights, 2, ts. split; [reflexivity|].
    split; [|unfold MAX_RETRIES; lia].
    destruct results; [discriminate L2 | discriminate]. }
  repeat split; try reflexivity; try exact L2.
  - rewrite !count_app, I1, I2. reflexivity.
  - apply in_or_app. right. exact In2.
  - rewrite !count_app, S1, S2. reflexivity.
Qed.

Lemma second_attempt_succeeds_witness :
  exists (d : dict) (t : trace) (results : list dict),
    process_query second_try_world full_config
      (lit "How many orders this month?") [] = (Ret d, t)
    /\ dict_get (lit "attempt") d = Some (VInt 2)
    /\ List.length results = 5
    /\ count is_insights t = 1.
Proof.
  destruct (second_attempt_succeeds second_try_world full_config
              (lit "How many orders this month?"))
    as (d & t & results & R & _ & A & _ & L & I & _).
  - reflexivity.
  - intros. eexists. reflexivity.
  - intros. exists (lit "syntax error"). repeat split; reflexivity.
  - intros. exists [lit "n"], five_rows. repeat split; reflexivity.
  - exists d, t, results. repeat split; assumption.
Defined.

(** ** The claim about the configuration *)

(** C3: with a database credential or the key of the generation service
    missing, [process_query] returns the failure record with the message
    of the configuration check at once: the trace is left as it was, so
    there is no call of the generation service, no database call and no
    pause.  A missing password gives the message of the database check. *)
Theorem process_query_unconfigured
    (w : world) (cfg : config) (natural_query : str) (t : trace) :
  (configured cfg = false ->
   exists error_msg,
     (error_msg = lit "Database configuration is incomplete"
      \/ error_msg = lit "OpenAI API key is not set")
     /\ process_query w cfg natural_query t
        = (Ret (failure error_msg natural_query (now w (List.length t))), t))
  /\ (truthy (db_password cfg) = false ->
      process_query w cfg natural_query t
      = (Ret (failure (lit "Database configuration is incomplete")
                natural_query (now w (List.length t))), t)).
Proof.
  unfold configured, process_query. split.
  - intros H.
    destruct (forallb truthy
                [db_host cfg; db_name cfg; db_user cfg; db_password cfg]).
    + simpl in H. rewrite H. eexists. split; [right|]; reflexivity.
    + eexists. split; [left|]; reflexivity.
  - intros H. simpl forallb. rewrite H, !andb_false_r. reflexivity.
Qed.

Lemma process_query_unconfigured_witness :
  process_query empty_world no_password_config
    (lit "How many orders this month?") []
  = (Ret (failure (lit "Database configuration is incomplete")
            (lit "How many orders this month?")
            (now empty_world 0)), []).
Proof.
  apply (proj2 (process_query_unconfigured empty_world no_password_config
                  (lit "How many orders this month?") [])).
  reflexivity.
Defined.

(** ** The claim about connections and cursors *)

(** C5, as stated, fails: a call of [execute_query] that returns a row
    opens one connection and one cursor and closes the cursor, but the
    connection is not closed, since leaving its [with] block only commits;
    and a call whose [connect] raises opens no connection and no cursor. *)
Lemma connection_left_open :
  (let t := snd (execute_query (world_with (fun _ => session_with [[VInt 1]]))
                   full_config (lit "SELECT 1") []) in
   opened_connections t = 1 /\ opened_cursors t = 1
   /\ closed_cursors t = 1 /\ closed_connections t = 0)
  /\ (let t := snd (execute_query (world_with (fun _ => unreachable_session))
                      full_config (lit "SELECT 1") []) in
      opened_connections t = 0 /\ opened_cursors t = 0).
Proof. repeat split; reflexivity. Qed.

(** C5, amended: every call of [execute_query] calls [connect] exactly
    once and opens at most one connection and, on it, at most one cursor;
    on every way out, a return or an exception, the cursor that was opened
    is closed and the transaction of the connection that was opened is
    ended, by a commit or a rollback.  A call that returns has opened one
    connection and one cursor and has committed. *)
Theorem execute_query_releases_cursor
    (w : world) (cfg : config) (sql : str) (t : trace) :
  exists r evs,
    execute_query w cfg sql t = (r, t ++ evs)
    /\ count is_connect evs = 1
    /\ opened_connections evs <= 1
    /\ opened_cursors evs <= opened_connections evs
    /\ closed_cursors evs = opened_cursors evs
    /\ commits evs + rollbacks evs = opened_connections evs
    /\ (returns r ->
        opened_connections evs = 1 /\ opened_cursors evs = 1
        /\ commits evs = 1).
Proof.
  unfold execute_query. run_unfold.
  destruct (connect_r (database w (count is_connect t) cfg)) as [[]|m1];
    run_unfold;
    [destruct (cursor_r (database w (count is_connect t) cfg)) as [[]|m2];
       run_unfold;
     [destruct (execute_r (database w (count is_connect t) cfg) sql)
        as [[[columns|] [rows|m4]]|m3];
        run_unfold|]|];
    try (destruct (commit_r (database w (count is_connect t) cfg))
           as [[]|m5]; run_unfold);
    try (destruct (rollback_r (database w (count is_connect t) cfg))
           as [[]|m6]; run_unfold);
    (eexists _, _; split; [rewrite <- ?app_assoc; reflexivity|]);
    repeat split; try reflexivity; try (cbv; lia);
    try match goal with H : returns (Raise _) |- _ => destruct H end.
Qed.

Lemma execute_query_releases_cursor_witness :
  exists r evs,
    execute_query (world_with (fun _ => failing_session)) full_config
      (lit "SELECT 1") [] = (r, [] ++ evs)
    /\ closed_cursors evs = opened_cursors evs
    /\ commits evs + rollbacks evs = opened_connections evs.
Proof.
  destruct (execute_query_releases_cursor
              (world_with (fun _ => failing_session)) full_config
              (lit "SELECT 1") [])
    as (r & evs & E & _ & _ & _ & C & T & _).
  exists r, evs. repeat split; assumption.
Defined.

(** * Further properties of the code *)

(** ** [clean_sql]: what it keeps and what it deletes *)

Section CleanSqlMore.

Lemma subseq_refl (a : str) : subseq a a.
Proof. induction a; constructor; assumption. Qed.

Lemma subseq_trans (a b c : str) : subseq a b -> subseq b c -> subseq a c.
Proof.
  intros Hab Hbc. revert a Hab.
  induction Hbc as [|x b c _ IH|x b c _ IH]; intros a Hab.
  - exact Hab.
  - inversion Hab; subst.
    + apply subseq_keep, IH. assumption.
    + apply subseq_drop, IH. assumption.
  - apply subseq_drop, IH, Hab.
Qed.

Lemma subseq_suffix (p r : str) : subseq r (p ++ r).
Proof.
  induction p; simpl; [apply subseq_refl | apply subseq_drop; assumption].
Qed.

Lemma subseq_prefix (a b : str) : subseq a (a ++ b).
Proof.
  induction a; simpl.
  - induction b; constructor; assumption.
  - apply subseq_keep. assumption.
Qed.

Lemma subseq_length (a b : str) :
  subseq a b -> List.length a <= List.length b.
Proof. induction 1; simpl; lia. Qed.

Lemma lstrip_suffix (s : str) : exists ws, s = ws ++ lstrip s.
Proof.
  induction s as [|c t (ws & E)]; [exists []; reflexivity|].
  simpl. destruct (is_space c).
  - exists (c :: ws). simpl. f_equal. exact E.
  - exists []. reflexivity.
Qed.

Lemma rstrip_prefix (s : str) : exists ws, s = rstrip s ++ ws.
Proof.
  unfold rstrip. destruct (lstrip_suffix (rev s)) as (ws & E).
  exists (rev ws). rewrite <- rev_app_distr, <- E, rev_involutive.
  reflexivity.
Qed.

Lemma strip_subseq (s : str) : subseq (strip s) s.
Proof.
  unfold strip. destruct (lstrip_suffix s) as (ws & E).
  destruct (rstrip_prefix (lstrip s)) as (ws' & E').
  apply subseq_trans with (b := lstrip s).
  - pose proof (subseq_prefix (rstrip (lstrip s)) ws') as H.
    rewrite <- E' in H. exact H.
  - pose proof (subseq_suffix ws (lstrip s)) as H.
    rewrite <- E in H. exact H.
Qed.

(** A substitution whose matches are followed by a rest of the text only
    deletes. *)
Lemma re_sub_del_subseq (m : str -> option str) :
  (forall s r, m s = Some r -> exists p, s = p ++ r) ->
  forall s, subseq (re_sub_del m s) s.
Proof.
  intros Hm s. remember (List.length s) as n eqn:E. revert s E.
  induction n as [n IH] using lt_wf_ind. intros s ->.
  destruct s as [|c t]; [simp re_sub_del; constructor|].
  rewrite re_sub_del_cons.
  destruct (m (c :: t)) as [r|] eqn:M.
  - destruct lt_dec as [L|L].
    + destruct (Hm _ _ M) as (p & Ep).
      apply subseq_trans with (b := r); [exact (IH _ L r eq_refl)|].
      rewrite Ep. apply subseq_suffix.
    + apply subseq_keep. exact (IH _ (Nat.lt_succ_diag_r _) t eq_refl).
  - apply subseq_keep. exact (IH _ (Nat.lt_succ_diag_r _) t eq_refl).
Qed.

Lemma match_sql_fence_suffix (s r : str) :
  match_sql_fence s = Some r -> exists p, s = p ++ r.
Proof.
  unfold match_sql_fence.
  destruct (strip_prefix sql_fence s) as [u|] eqn:E; [|discriminate].
  intros H; injection H as <-. apply strip_prefix_some in E.
  destruct (lstrip_suffix u) as (ws & Eu).
  exists (sql_fence ++ ws). rewrite <- app_assoc, <- Eu. exact E.
Qed.

Lemma match_trailing_fence_suffix (s r : str) :
  match_trailing_fence s = Some r -> exists p, s = p ++ r.
Proof.
  intros H. apply match_trailing_fence_some in H. destruct H as (-> & _).
  exists s. rewrite app_nil_r. reflexivity.
Qed.

(** A text without back quote has no fence. *)
Lemma no_backquote_no_fence (p x : str) :
  ~ In (ascii_of_nat 96) x ->
  forall a b, x = a ++ b -> strip_prefix (ascii_of_nat 96 :: p) b = None.
Proof.
  intros N a b ->. destruct b as [|c b]; [reflexivity|].
  cbn [strip_prefix].
  destruct (Ascii.eqb_spec (ascii_of_nat 96) c) as [<-|]; [|reflexivity].
  exfalso. apply N, in_or_app. right. left. reflexivity.
Qed.

Lemma space_no_backquote (x : str) :
  forallb is_space x = true -> ~ In (ascii_of_nat 96) x.
Proof.
  intros H I. rewrite forallb_forall in H. specialize (H _ I). discriminate.
Qed.

(** The opening fence ends with the letter l: a text without opening
    fence does not get one when a text without that letter is put after
    it. *)
Lemma sql_fence_not_across (a tail : str) :
  contains sql_fence a = false ->
  ~ In (ascii_of_nat 108) tail ->
  contains sql_fence (a ++ tail) = false.
Proof.
  intros Ca Nl. destruct (contains sql_fence (a ++ tail)) eqn:C; [|reflexivity].
  exfalso. destruct (contains_split _ _ C) as (u & v & E).
  rewrite app_assoc in E. apply app_eq_app in E.
  destruct E as (l & [[Ea Ev]|[Eu Et]]).
  - rewrite Ea, <- !app_assoc, contains_app in Ca. discriminate.
  - destruct l as [|c l].
    + rewrite app_nil_r in Eu. rewrite <- Eu, <- (app_nil_r (u ++ sql_fence)),
        <- app_assoc, contains_app in Ca. discriminate.
    + apply Nl. rewrite Et. apply in_or_app. left.
      apply (f_equal (@rev _)) in Eu. rewrite !rev_app_distr in Eu.
      destruct (rev (c :: l)) as [|d w] eqn:R.
      { apply (f_equal (@List.length _)) in R. rewrite length_rev in R.
        discriminate. }
      assert (In d (c :: l)) as I.
      { apply in_rev. rewrite R. left. reflexivity. }
      change (rev sql_fence) with (lit "lqs```") in Eu.
      simpl in Eu. injection Eu as <- _. exact I.
Qed.

End CleanSqlMore.

(** X1: [clean_sql] only deletes characters: its result is the input with
    some characters left out, in the same order, and so it is never
    longer than the input. *)
Theorem clean_sql_only_deletes (x : str) :
  subseq (clean_sql x) x /\ List.length (clean_sql x) <= List.length x.
Proof.
  assert (H : subseq (clean_sql x) x).
  { unfold clean_sql.
    eapply subseq_trans; [apply strip_subseq|].
    eapply subseq_trans;
      [apply re_sub_del_subseq, match_trailing_fence_suffix
      | apply re_sub_del_subseq, match_sql_fence_suffix]. }
  split; [exact H | apply subseq_length, H].
Qed.

Lemma clean_sql_no_backquote (x : str) :
  ~ In (ascii_of_nat 96) x -> clean_sql x = strip x.
Proof.
  intros N. unfold clean_sql.
  rewrite (re_sub_del_no_match match_sql_fence).
  - rewrite (re_sub_del_no_match match_trailing_fence); [reflexivity|].
    intros a b E. unfold match_trailing_fence, fence.
    change (lit "```") with (ascii_of_nat 96 :: lit "``").
    rewrite (no_backquote_no_fence (lit "``") x N a b E). reflexivity.
  - intros a b E. unfold match_sql_fence, sql_fence.
    change (lit "```sql") with (ascii_of_nat 96 :: lit "``sql").
    rewrite (no_backquote_no_fence (lit "``sql") x N a b E).
    reflexivity.
Qed.

(** X2: on a text without back quote [clean_sql] is [strip]; a text of
    white space only, the empty text included, becomes the empty text. *)
Theorem clean_sql_without_fence (x : str) :
  (~ In (ascii_of_nat 96) x -> clean_sql x = strip x)
  /\ (forallb is_space x = true -> clean_sql x = []).
Proof.
  split; [apply clean_sql_no_backquote|].
  intros W. rewrite (clean_sql_no_backquote x (space_no_backquote _ W)).
  unfold strip. rewrite (lstrip_all_space _ W). reflexivity.
Qed.

Lemma clean_sql_without_fence_witness :
  clean_sql (lit "  SELECT 1 ; ") = strip (lit "  SELECT 1 ; ")
  /\ clean_sql (lit "   ") = [].
Proof.
  split.
  - apply (proj1 (clean_sql_without_fence (lit "  SELECT 1 ; "))).
    vm_compute. intuition congruence.
  - apply (proj2 (clean_sql_without_fence (lit "   "))). reflexivity.
Defined.

Lemma clean_sql_fenced_statement (body ws1 ws2 ws3 : str) :
  forallb is_space ws1 = true ->
  forallb is_space ws2 = true ->
  forallb is_space ws3 = true ->
  lstrip body = body -> rstrip body = body ->
  contains sql_fence body = false ->
  clean_sql (sql_fence ++ ws1 ++ body ++ ws2 ++ fence ++ ws3) = body.
Proof.
  intros W1 W2 W3 L R C. unfold clean_sql.
  change (sql_fence ++ ws1 ++ body ++ ws2 ++ fence ++ ws3)
    with ([] ++ sql_fence ++ ws1 ++ body ++ ws2 ++ fence ++ ws3).
  rewrite (remove_sql_fence_at [] (ws1 ++ body ++ ws2 ++ fence ++ ws3)).
  simp re_sub_del. cbn [app].
  rewrite lstrip_app, W1.
  assert (Nl : forall ws, forallb is_space ws = true ->
                          ~ In (ascii_of_nat 108) (ws ++ fence ++ ws3)).
  { intros ws W I. apply in_app_or in I. destruct I as [I|I].
    - rewrite forallb_forall in W. specialize (W _ I). discriminate.
    - apply in_app_or in I. destruct I as [I|I].
      + simpl in I. intuition discriminate.
      + rewrite forallb_forall in W3. specialize (W3 _ I). discriminate. }
  destruct body as [|c body].
  - cbn [app]. rewrite lstrip_app, W2.
    change (lstrip (fence ++ ws3)) with ([] ++ fence ++ ws3).
    rewrite remove_sql_fence_none.
    + rewrite (remove_trailing_fence_at [] ws3 W3). reflexivity.
    + apply (sql_fence_not_across [] (fence ++ ws3) eq_refl (Nl [] eq_refl)).
  - assert (Hc : is_space c = false) by exact (lstrip_head _ _ _ L).
    change ((c :: body) ++ ws2 ++ fence ++ ws3)
      with (c :: body ++ ws2 ++ fence ++ ws3).
    rewrite (lstrip_fixed c _ Hc).
    change (c :: body ++ ws2 ++ fence ++ ws3)
      with ((c :: body) ++ ws2 ++ fence ++ ws3).
    rewrite remove_sql_fence_none
      by (apply (sql_fence_not_across _ _ C (Nl ws2 W2))).
    rewrite app_assoc, (remove_trailing_fence_at _ ws3 W3).
    unfold strip.
    change ((c :: body) ++ ws2) with (c :: body ++ ws2).
    rewrite (lstrip_fixed c _ Hc).
    change (c :: body ++ ws2) with ((c :: body) ++ ws2).
    rewrite (rstrip_app_space _ _ W2). exact R.
Qed.

(** White space at the head of the text is passed over by both
    substitutions. *)
Lemma re_sub_del_leading_space (m : str -> option str) (ws x : str) :
  (forall c t, is_space c = true -> m (c :: t) = None) ->
  forallb is_space ws = true ->
  re_sub_del m (ws ++ x) = ws ++ re_sub_del m x.
Proof.
  intros Hm. induction ws as [|c ws IH]; intros W; [reflexivity|].
  simpl in W. apply andb_true_iff in W. destruct W as [Wc W].
  change ((c :: ws) ++ x) with (c :: ws ++ x).
  rewrite re_sub_del_cons, (Hm c _ Wc), (IH W). reflexivity.
Qed.

Lemma fence_not_at_space (p : str) (c : ascii) (t : str) :
  is_space c = true -> strip_prefix (ascii_of_nat 96 :: p) (c :: t) = None.
Proof.
  intros W. cbn [strip_prefix].
  destruct (Ascii.eqb_spec (ascii_of_nat 96) c) as [<-|]; [|reflexivity].
  discriminate W.
Qed.

(** X3: a statement wrapped in an opening and a closing fence, with any
    white space before the opening fence, after it, before the closing
    fence and after it, comes back as it was, if it has no white space at
    its ends and no opening fence inside. *)
Theorem clean_sql_unwraps (body ws0 ws1 ws2 ws3 : str) :
  forallb is_space ws0 = true ->
  forallb is_space ws1 = true ->
  forallb is_space ws2 = true ->
  forallb is_space ws3 = true ->
  lstrip body = body -> rstrip body = body ->
  contains sql_fence body = false ->
  clean_sql (ws0 ++ sql_fence ++ ws1 ++ body ++ ws2 ++ fence ++ ws3) = body.
Proof.
  intros W0 W1 W2 W3 L R C.
  rewrite <- (clean_sql_fenced_statement body ws1 ws2 ws3 W1 W2 W3 L R C)
    at 2.
  unfold clean_sql.
  rewrite (re_sub_del_leading_space match_sql_fence ws0); [|
    intros c t W; unfold match_sql_fence, sql_fence;
    change (lit "```sql") with (ascii_of_nat 96 :: lit "``sql");
    rewrite (fence_not_at_space _ c t W); reflexivity | exact W0].
  rewrite (re_sub_del_leading_space match_trailing_fence ws0); [|
    intros c t W; unfold match_trailing_fence, fence;
    change (lit "```") with (ascii_of_nat 96 :: lit "``");
    rewrite (fence_not_at_space _ c t W); reflexivity | exact W0].
  unfold strip. rewrite lstrip_app, W0. reflexivity.
Qed.

Lemma clean_sql_unwraps_witness :
  clean_sql (sql_fence ++ nl ++ lit "SELECT name FROM customer" ++ nl
               ++ fence ++ nl)
  = lit "SELECT name FROM customer".
Proof.
  apply (clean_sql_unwraps (lit "SELECT name FROM customer") [] nl nl nl);
    reflexivity.
Defined.

(** ** The prompt: what it carries *)

Section PromptMore.

Lemma to_uint_nonnil (n : nat) : Nat.to_uint n <> Decimal.Nil.
Proof.
  rewrite <- (DecimalNat.Unsigned.of_to n) at 1.
  rewrite DecimalNat.Unsigned.to_of. unfold Decimal.unorm.
  destruct (Decimal.nzhead (Nat.to_uint n)); discriminate.
Qed.

Lemma str_of_nat_inj (n m : nat) : str_of_nat n = str_of_nat m -> n = m.
Proof.
  unfold str_of_nat, lit. intros H.
  apply (f_equal string_of_list_ascii) in H.
  rewrite !string_of_list_ascii_of_string in H.
  apply (f_equal NilZero.uint_of_string) in H.
  rewrite !NilZero.usu in H by apply to_uint_nonnil.
  injection H as H. apply DecimalNat.Unsigned.to_uint_inj, H.
Qed.

Lemma contains_refl (p : str) : contains p p = true.
Proof.
  pose proof (contains_app p [] []) as H. rewrite app_nil_r in H. exact H.
Qed.

End PromptMore.

(** X4: the prompt carries the question as it was asked and the whole
    schema text, whatever the attempt. *)
Theorem enhance_prompt_embeds (natural_query : str) (attempt : nat) :
  contains natural_query (enhance_prompt natural_query attempt) = true
  /\ contains schema (enhance_prompt natural_query attempt) = true.
Proof.
  assert (T : contains natural_query
                (prompt_template natural_query attempt) = true
              /\ contains schema
                   (prompt_template natural_query attempt) = true).
  { unfold prompt_template, text. split.
    - eapply contains_join; [do 14 right; left; reflexivity|].
      apply contains_app_r, contains_refl.
    - eapply contains_join; [do 2 right; left; reflexivity|].
      apply contains_app_r, contains_refl. }
  unfold enhance_prompt.
  destruct (contains (lit "this month") (lower natural_query));
    [split; apply contains_app_l; apply T | exact T].
Qed.

(** X5: the prompts of two different attempts differ, for every question:
    a retry never sends the prompt of an earlier attempt again. *)
Theorem enhance_prompt_attempts_differ (natural_query : str) (n m : nat) :
  n <> m ->
  enhance_prompt natural_query n <> enhance_prompt natural_query m.
Proof.
  unfold enhance_prompt. intros D H. apply D.
  assert (T : prompt_template natural_query n
              = prompt_template natural_query m).
  { destruct (contains (lit "this month") (lower natural_query));
      [apply app_inv_tail in H|]; exact H. }
  clear H. unfold prompt_template, text in T. cbn [join] in T.
  repeat (apply app_inv_head in T).
  rewrite <- !app_assoc in T. apply app_inv_head in T.
  apply app_inv_tail in T. apply str_of_nat_inj, T.
Qed.

Lemma enhance_prompt_attempts_differ_witness :
  enhance_prompt (lit "How many orders this month?") 1
  <> enhance_prompt (lit "How many orders this month?") 2.
Proof.
  apply (enhance_prompt_attempts_differ (lit "How many orders this month?")).
  discriminate.
Defined.

(** ** [execute_query]: records and errors *)

Section Records.

Lemma str_eqb_eq (a b : str) : str_eqb a b = true <-> a = b.
Proof.
  revert b; induction a as [|x a IH]; intros [|y b]; simpl;
    try (split; [discriminate | discriminate]); [tauto|].
  rewrite andb_true_iff, IH, Ascii.eqb_eq. split.
  - intros [-> ->]. reflexivity.
  - intros H; injection H as -> ->. auto.
Qed.

Lemma str_eqb_refl (a : str) : str_eqb a a = true.
Proof. apply str_eqb_eq. reflexivity. Qed.

Lemma str_eqb_neq (a b : str) : a <> b -> str_eqb a b = false.
Proof.
  intros H. destruct (str_eqb a b) eqn:E; [|reflexivity].
  apply str_eqb_eq in E. contradiction.
Qed.

Lemma dict_set_fresh (k : str) (v : value) (d : dict) :
  ~ In k (keys d) -> dict_set k v d = d ++ [(k, v)].
Proof.
  induction d as [|[k' v'] d IH]; simpl; [reflexivity|]. intros N.
  rewrite str_eqb_neq by (intros ->; apply N; left; reflexivity).
  rewrite IH by (intros I; apply N; right; exact I). reflexivity.
Qed.

Lemma dict_of_fresh (pairs : list (str * value)) (d : dict) :
  NoDup (keys d ++ map fst pairs) ->
  fold_left (fun d kv => dict_set (fst kv) (snd kv) d) pairs d = d ++ pairs.
Proof.
  revert d; induction pairs as [|[k v] pairs IH]; intros d N; simpl.
  - rewrite app_nil_r. reflexivity.
  - rewrite dict_set_fresh.
    + rewrite IH, <- app_assoc; [reflexivity|].
      unfold keys in *. rewrite map_app, <- app_assoc. exact N.
    + simpl in N. apply NoDup_remove_2 in N. intros I. apply N.
      apply in_or_app. left. exact I.
Qed.

Lemma dict_of_nodup (pairs : list (str * value)) :
  NoDup (map fst pairs) -> dict_of pairs = pairs.
Proof. intros N. unfold dict_of. rewrite dict_of_fresh; auto. Qed.

Lemma zip_keys_nodup {B} (columns : list str) (r : list B) :
  NoDup columns -> NoDup (map fst (zip columns r)).
Proof.
  unfold zip. intros N. revert r.
  induction N as [|c columns Nc _ IH]; intros [|x r]; simpl;
    try constructor; [|apply IH].
  intros I. apply Nc. apply in_map_iff in I.
  destruct I as ([c' x'] & <- & I). exact (in_combine_l _ _ _ _ I).
Qed.

Lemma dict_set_keys (k : str) (v : value) (d : dict) :
  keys (dict_set k v d) = if existsb (str_eqb k) (keys d) then keys d
                          else keys d ++ [k].
Proof.
  induction d as [|[k' v'] d IH]; simpl; [reflexivity|].
  destruct (str_eqb k k') eqn:E; simpl.
  - apply str_eqb_eq in E. subst. reflexivity.
  - rewrite IH. destruct (existsb (str_eqb k) (keys d)); reflexivity.
Qed.

Lemma dict_set_nodup (k : str) (v : value) (d : dict) :
  NoDup (keys d) -> NoDup (keys (dict_set k v d)).
Proof.
  intros N. rewrite dict_set_keys.
  destruct (existsb (str_eqb k) (keys d)) eqn:E; [exact N|].
  apply NoDup_app; [exact N | repeat constructor; intros [] | ].
  intros x I [Ek|[]]. rewrite <- Ek in I.
  assert (existsb (str_eqb k) (keys d) = true) as T.
  { apply existsb_exists. exists k. split; [exact I | apply str_eqb_refl]. }
  congruence.
Qed.

Lemma dict_of_keys_nodup (pairs : list (str * value)) :
  NoDup (keys (dict_of pairs)).
Proof.
  unfold dict_of.
  assert (H : forall d, NoDup (keys d) ->
    NoDup (keys (fold_left (fun d kv => dict_set (fst kv) (snd kv) d)
                   pairs d))).
  { induction pairs as [|[k v] pairs IH]; intros d N; simpl; [exact N|].
    apply IH, dict_set_nodup, N. }
  apply H. constructor.
Qed.

Lemma dict_get_set (k k' : str) (v : value) (d : dict) :
  dict_get k (dict_set k' v d)
  = if str_eqb k k' then Some v else dict_get k d.
Proof.
  induction d as [|[k2 v2] d IH]; simpl; [reflexivity|].
  destruct (str_eqb k' k2) eqn:E; simpl.
  - apply str_eqb_eq in E. subst k2. destruct (str_eqb k k'); reflexivity.
  - rewrite IH. destruct (str_eqb k k2) eqn:E2; [|reflexivity].
    apply str_eqb_eq in E2. subst k2.
    rewrite str_eqb_neq; [reflexivity|].
    intros ->. rewrite str_eqb_refl in E. discriminate.
Qed.

Lemma dict_get_app (k : str) (a b : dict) :
  dict_get k (a ++ b)
  = match dict_get k a with Some v => Some v | None => dict_get k b end.
Proof.
  induction a as [|[k' v'] a IH]; simpl; [reflexivity|].
  destruct (str_eqb k k'); [reflexivity | exact IH].
Qed.

(** Looking a key up in [dict(pairs)] gives the value of the last pair
    with that key. *)
Lemma dict_get_dict_of (k : str) (pairs : list (str * value)) :
  dict_get k (dict_of pairs) = dict_get k (rev pairs).
Proof.
  unfold dict_of.
  assert (H : forall d,
    dict_get k (fold_left (fun d kv => dict_set (fst kv) (snd kv) d) pairs d)
    = match dict_get k (rev pairs) with
      | Some v => Some v
      | None => dict_get k d
      end).
  { induction pairs as [|[k' v'] pairs IH]; intros d; simpl; [reflexivity|].
    rewrite IH, dict_get_app, dict_get_set. simpl.
    destruct (dict_get k (rev pairs)); [reflexivity|].
    destruct (str_eqb k k'); reflexivity. }
  rewrite H. destruct (dict_get k (rev pairs)); reflexivity.
Qed.

Lemma Forall2_map_self {A B} (f : A -> B) (P : B -> A -> Prop) (l : list A) :
  (forall x, P (f x) x) -> Forall2 P (map f l) l.
Proof. intros H. induction l; simpl; constructor; auto. Qed.

End Records.

Section ExecuteQueryMore.

Variable w : world.
Variable cfg : config.

(** Every way through [execute_query]: one call of [connect], database
    events only, no statement but the given one, and no exception but a
    wrapped one. *)
Lemma execute_query_summary (sql : str) (t : trace) :
  exists r evs,
    execute_query w cfg sql t = (r, t ++ evs)
    /\ Forall (fun e => is_db e = true) evs
    /\ count is_connect evs = 1
    /\ Forall (fun s => s = sql) (executed evs)
    /\ (forall e, r = Raise e -> startswith (lit "Database error: ") e = true).
Proof.
  unfold execute_query. run_unfold.
  destruct (connect_r (database w (count is_connect t) cfg)) as [[]|m1];
    run_unfold;
    [destruct (cursor_r (database w (count is_connect t) cfg)) as [[]|m2];
       run_unfold;
     [destruct (execute_r (database w (count is_connect t) cfg) sql)
        as [[[columns|] [rows|m4]]|m3];
        run_unfold|]|];
    try (destruct (commit_r (database w (count is_connect t) cfg))
           as [[]|m5]; run_unfold);
    try (destruct (rollback_r (database w (count is_connect t) cfg))
           as [[]|m6]; run_unfold);
    (eexists _, _; split; [rewrite <- ?app_assoc; reflexivity|]);
    cbn [app executed flat_map executed_of].
  all: split; [repeat (constructor; try reflexivity)|].
  all: split; [reflexivity|].
  all: split; [repeat (constructor; try reflexivity)|].
  all: intros e E; try discriminate E; injection E as <-.
  all: first [apply startswith_app | reflexivity].
Qed.

End ExecuteQueryMore.

(** X6: when the column names are distinct, [execute_query] returns one
    record per row, in the order of the rows, each pairing the columns
    with the values of the row in the order of the columns. *)
Theorem execute_query_records_in_order
    (w : world) (cfg : config) (sql : str) (t : trace)
    (columns : list str) (rows : list row) :
  answers_rows (database w (count is_connect t) cfg) sql columns rows ->
  NoDup columns ->
  fst (execute_query w cfg sql t)
  = Ret (map (fun r : row => combine columns r) rows).
Proof.
  intros H N. rewrite (execute_query_rows_run w cfg sql t columns rows H).
  simpl. f_equal. apply map_ext. intros r.
  apply dict_of_nodup, zip_keys_nodup, N.
Qed.

Lemma execute_query_records_in_order_witness :
  fst (execute_query (world_with (fun _ => session_with five_rows))
         full_config (lit "SELECT n FROM t") [])
  = Ret (map (fun r : row => combine [lit "n"] r) five_rows).
Proof.
  apply (execute_query_records_in_order
           (world_with (fun _ => session_with five_rows)) full_config
           (lit "SELECT n FROM t") [] [lit "n"] five_rows).
  - repeat split; reflexivity.
  - repeat constructor. intros [].
Defined.

(** X7: whatever the column names are, [execute_query] returns one record
    per row, no record has a key twice, and under each key a record holds
    the value of the last column of that name: of two columns with one
    name, the first one is lost. *)
Theorem execute_query_duplicate_columns
    (w : world) (cfg : config) (sql : str) (t : trace)
    (columns : list str) (rows : list row) :
  answers_rows (database w (count is_connect t) cfg) sql columns rows ->
  exists records,
    fst (execute_query w cfg sql t) = Ret records
    /\ Forall2 (fun record r =>
                  NoDup (keys record)
                  /\ forall k, dict_get k record
                               = dict_get k (rev (zip columns r)))
               records rows.
Proof.
  intros H. rewrite (execute_query_rows_run w cfg sql t columns rows H).
  eexists. split; [reflexivity|].
  apply Forall2_map_self. intros r.
  split; [apply dict_of_keys_nodup | intros k; apply dict_get_dict_of].
Qed.

Lemma execute_query_duplicate_columns_witness :
  fst (execute_query
         (world_with (fun _ =>
            {| connect_r := Ok tt;
               cursor_r := Ok tt;
               execute_r := fun _ =>
                 Ok {| description := Some [lit "name"; lit "name"];
                       fetchall_r := Ok [ [VStr (lit "Ann"); VStr (lit "Bob")] ] |};
               commit_r := Ok tt;
               rollback_r := Ok tt |}))
         full_config (lit "SELECT c.name, l.name FROM customer c, lead l") [])
  = Ret [ [(lit "name", VStr (lit "Bob"))] ].
Proof.
  destruct (execute_query_duplicate_columns
              (world_with (fun _ =>
                 {| connect_r := Ok tt;
                    cursor_r := Ok tt;
                    execute_r := fun _ =>
                      Ok {| description := Some [lit "name"; lit "name"];
                            fetchall_r :=
                              Ok [ [VStr (lit "Ann"); VStr (lit "Bob")] ] |};
                    commit_r := Ok tt;
                    rollback_r := Ok tt |}))
              full_config (lit "SELECT c.name, l.name FROM customer c, lead l")
              [] [lit "name"; lit "name"]
              [ [VStr (lit "Ann"); VStr (lit "Bob")] ])
    as (records & E & _).
  - repeat split; reflexivity.
  - reflexivity.
Defined.

(** X8: whatever goes wrong inside [execute_query], the connection, the
    cursor, the statement, the missing result set, the fetch, the commit
    or the rollback, the caller gets an exception whose message starts
    with [Database error: ]. *)
Theorem execute_query_wraps_errors
    (w : world) (cfg : config) (sql : str) (t : trace) (e : exn) :
  fst (execute_query w cfg sql t) = Raise e ->
  startswith (lit "Database error: ") e = true.
Proof.
  destruct (execute_query_summary w cfg sql t) as (r & evs & E & _ & _ & _ & H).
  rewrite E. exact (H e).
Qed.

Lemma execute_query_wraps_errors_witness :
  startswith (lit "Database error: ") (lit "Database error: connection refused")
  = true.
Proof.
  apply (execute_query_wraps_errors
           (world_with (fun _ => unreachable_session)) full_config
           (lit "SELECT 1") []).
  reflexivity.
Defined.

(** X9: a statement that the database runs without giving a result set
    (its [description] is [None]) makes [execute_query] raise: the
    statement has been executed, nothing is fetched, the cursor is closed
    and the transaction is rolled back. *)
Theorem execute_query_without_result_set
    (w : world) (cfg : config) (sql : str) (t : trace)
    (fetch : outcome (list row)) :
  connect_r (database w (count is_connect t) cfg) = Ok tt ->
  cursor_r (database w (count is_connect t) cfg) = Ok tt ->
  execute_r (database w (count is_connect t) cfg) sql
  = Ok {| description := None; fetchall_r := fetch |} ->
  rollback_r (database w (count is_connect t) cfg) = Ok tt ->
  execute_query w cfg sql t
  = (Raise (lit "Database error: 'NoneType' object is not iterable"),
     t ++ [EvConnect (count is_connect t) true;
           EvCursor (count is_connect t) true;
           EvExecute (count is_connect t) sql;
           EvCursorClose (count is_connect t);
           EvRollback (count is_connect t)]).
Proof.
  intros Hc Hu He Hr. unfold execute_query. run_unfold.
  rewrite Hc. run_unfold. rewrite Hu. run_unfold.
  rewrite He. run_unfold. rewrite Hr. run_unfold.
  rewrite <- !app_assoc. reflexivity.
Qed.

Lemma execute_query_without_result_set_witness :
  fst (execute_query
         (world_with (fun _ =>
            {| connect_r := Ok tt;
               cursor_r := Ok tt;
               execute_r := fun _ =>
                 Ok {| description := None;
                       fetchall_r := Fail (lit "no results to fetch") |};
               commit_r := Ok tt;
               rollback_r := Ok tt |}))
         full_config (lit "UPDATE lead SET status = 'NEW'") [])
  = Raise (lit "Database error: 'NoneType' object is not iterable").
Proof.
  rewrite (execute_query_without_result_set
             (world_with (fun _ =>
                {| connect_r := Ok tt;
                   cursor_r := Ok tt;
                   execute_r := fun _ =>
                     Ok {| description := None;
                           fetchall_r := Fail (lit "no results to fetch") |};
                   commit_r := Ok tt;
                   rollback_r := Ok tt |}))
             full_config (lit "UPDATE lead SET status = 'NEW'") []
             (Fail (lit "no results to fetch")));
    reflexivity.
Defined.

(** ** One attempt, in every world *)

Section AttemptCases.

Variable w : world.
Variable cfg : config.

Lemma chat_create_fail_run (messages : list message) (t : trace) (m : exn) :
  chat w (count is_chat t) gpt_model messages = Fail m ->
  chat_create w messages t = (Raise m, t ++ [EvChat gpt_model messages]).
Proof.
  intros H. unfold chat_create, bind, get_trace, emit. rewrite H. reflexivity.
Qed.

Lemma enhance_query_fail_run (natural_query : str) (attempt : nat)
    (t : trace) (m : exn) :
  chat w (count is_chat t) gpt_model
       (sql_messages (enhance_prompt natural_query attempt)) = Fail m ->
  enhance_query w natural_query attempt t
  = (Raise m,
     t ++ [EvChat gpt_model
             (sql_messages (enhance_prompt natural_query attempt))]).
Proof.
  intros H. unfold enhance_query, bind.
  rewrite (chat_create_fail_run _ _ _ H). reflexivity.
Qed.

Lemma generate_insights_fail_run (results : list dict) (query : str)
    (t : trace) (m : exn) :
  chat w (count is_chat t) gpt_model
       (insight_messages (insight_prompt w results query)) = Fail m ->
  generate_insights w results query t
  = (Raise m,
     t ++ [EvInsights results query;
           EvChat gpt_model
             (insight_messages (insight_prompt w results query))]).
Proof.
  intros H. unfold generate_insights, bind, emit.
  rewrite chat_create_fail_run with (m := m).
  - rewrite <- app_assoc. reflexivity.
  - rewrite count_app. simpl. rewrite Nat.add_0_r. exact H.
Qed.

(** Database events are no calls of the generation service, no pauses and
    no entries into [generate_insights]. *)
Lemma db_events_quiet (evs : trace) :
  Forall (fun e => is_db e = true) evs ->
  count is_chat evs = 0 /\ count is_sleep evs = 0
  /\ count is_insights evs = 0 /\ sql_prompts evs = [].
Proof.
  induction 1 as [|e evs He _ (IH1 & IH2 & IH3 & IH4)];
    [repeat split; reflexivity|].
  unfold count, sql_prompts in *. simpl.
  destruct e; try discriminate He; simpl; auto.
Qed.

Lemma executed_app (a b : trace) : executed (a ++ b) = executed a ++ executed b.
Proof. apply flat_map_app. Qed.

Lemma sql_prompts_app (a b : trace) :
  sql_prompts (a ++ b) = sql_prompts a ++ sql_prompts b.
Proof. apply flat_map_app. Qed.

Lemma handler_run (attempt : nat) (e : exn) (t : trace) :
  (if attempt <? MAX_RETRIES
   then (sleep RETRY_DELAY ;; ret None)%run
   else raise e) t
  = (handled attempt e, t ++ pause attempt).
Proof.
  unfold handled, pause, sleep, bind, emit, ret, raise.
  destruct (attempt <? MAX_RETRIES); rewrite ?app_nil_r; reflexivity.
Qed.

(** What an attempt does, case by case.  Its events, the pause left
    aside, are [evs]. *)
Lemma attempt_cases (natural_query : str) (attempt : nat) (t : trace) :
  exists evs,
    (count is_sleep evs = 0
     /\ 1 <= count is_chat evs <= 2
     /\ count is_connect evs <= 1
     /\ count is_insights evs <= 1
     /\ sql_prompts evs = [enhance_prompt natural_query attempt]
     /\ Forall (sanitized_answer w) (executed evs))
    /\ ((exists e,
           attempt_error w e
           /\ attempt_query_execution w cfg natural_query attempt t
              = (handled attempt e, t ++ evs ++ pause attempt))
        \/ (exists d,
              success_at natural_query attempt d
              /\ attempt_query_execution w cfg natural_query attempt t
                 = (Ret (Some d), t ++ evs))).
Proof.
  set (ev := EvChat gpt_model
               (sql_messages (enhance_prompt natural_query attempt))).
  remember (attempt_query_execution w cfg natural_query attempt t)
    as run eqn:E.
  unfold attempt_query_execution, try_except, bind at 1 in E.
  destruct (chat w (count is_chat t) gpt_model
              (sql_messages (enhance_prompt natural_query attempt)))
    as [s|m] eqn:Hs.
  2: { (* the generation service fails *)
    rewrite (enhance_query_fail_run natural_query attempt t m Hs) in E.
    fold ev in E. rewrite handler_run in E.
    exists [ev]. split.
    - repeat split; try reflexivity; try (cbv; lia). constructor.
    - left. exists m. split; [|rewrite E, <- app_assoc; reflexivity].
      right. right. eexists _, _. exact Hs. }
  rewrite (enhance_query_run w natural_query attempt t s Hs) in E.
  fold ev in E. set (sql := clean_sql (strip s)) in *. unfold bind at 1 in E.
  destruct (execute_query_summary w cfg sql (t ++ [ev]))
    as (r & dbevs & Hx & Hdb & Hconn & Hexec & Hwrap).
  destruct (db_events_quiet dbevs Hdb) as (Q1 & Q2 & Q3 & Q4).
  assert (Hsan : Forall (sanitized_answer w) (executed dbevs)).
  { eapply Forall_impl; [|exact Hexec]. intros x ->.
    eexists _, _, s. split; [exact Hs | reflexivity]. }
  assert (Base : count is_sleep ([ev] ++ dbevs) = 0
                 /\ count is_chat ([ev] ++ dbevs) = 1
                 /\ count is_connect ([ev] ++ dbevs) = 1
                 /\ count is_insights ([ev] ++ dbevs) = 0
                 /\ sql_prompts ([ev] ++ dbevs)
                    = [enhance_prompt natural_query attempt]
                 /\ Forall (sanitized_answer w) (executed ([ev] ++ dbevs))).
  { rewrite !count_app, sql_prompts_app, executed_app, Q1, Q2, Q3, Q4, Hconn.
    repeat split; try reflexivity. exact Hsan. }
  destruct Base as (B1 & B2 & B3 & B4 & B5 & B6).
  rewrite Hx in E. destruct r as [[|r0 rs]|e].
  - (* no row *)
    unfold raise at 1 in E. rewrite handler_run in E.
    exists ([ev] ++ dbevs). split.
    + repeat split; try assumption; lia.
    + left. exists (lit "Query returned no results").
      split; [left; reflexivity | rewrite E, <- !app_assoc; reflexivity].
  - (* rows *)
    set (t2 := (t ++ [ev]) ++ dbevs) in *. unfold bind at 1 in E.
    set (iev := [EvInsights (r0 :: rs) natural_query;
                 EvChat gpt_model
                   (insight_messages
                      (insight_prompt w (r0 :: rs) natural_query))]).
    assert (Full : count is_sleep (([ev] ++ dbevs) ++ iev) = 0
                   /\ count is_chat (([ev] ++ dbevs) ++ iev) = 2
                   /\ count is_connect (([ev] ++ dbevs) ++ iev) = 1
                   /\ count is_insights (([ev] ++ dbevs) ++ iev) = 1
                   /\ sql_prompts (([ev] ++ dbevs) ++ iev)
                      = [enhance_prompt natural_query attempt]
                   /\ Forall (sanitized_answer w)
                        (executed (([ev] ++ dbevs) ++ iev))).
    { rewrite !(count_app _ ([ev] ++ dbevs)), (sql_prompts_app ([ev] ++ dbevs)),
        (executed_app ([ev] ++ dbevs)), B1, B2, B3, B4, B5.
      repeat split; try reflexivity.
      change (executed iev) with (@nil str). rewrite app_nil_r. exact B6. }
    destruct Full as (F1 & F2 & F3 & F4 & F5 & F6).
    destruct (chat w (count is_chat t2) gpt_model
                (insight_messages
                   (insight_prompt w (r0 :: rs) natural_query)))
      as [insights|m] eqn:Hi.
    + rewrite (generate_insights_run w (r0 :: rs) natural_query t2
                 insights Hi) in E.
      fold iev in E. unfold bind, now_isoformat, get_trace, ret in E.
      exists (([ev] ++ dbevs) ++ iev). split.
      * repeat split; try assumption; lia.
      * right. eexists. split.
        -- exists sql, (r0 :: rs), insights. eexists.
           split; [reflexivity | discriminate].
        -- rewrite E. unfold t2. rewrite <- !app_assoc. reflexivity.
    + rewrite (generate_insights_fail_run (r0 :: rs) natural_query t2 m Hi)
        in E.
      fold iev in E. rewrite handler_run in E.
      exists (([ev] ++ dbevs) ++ iev). split.
      * repeat split; try assumption; lia.
      * left. exists m. split.
        -- right. right. eexists _, _. exact Hi.
        -- rewrite E. unfold t2. rewrite <- !app_assoc. reflexivity.
  - (* the database *)
    rewrite handler_run in E.
    exists ([ev] ++ dbevs). split.
    + repeat split; try assumption; lia.
    + left. exists e. split.
      * right. left. exact (Hwrap e eq_refl).
      * rewrite E, <- !app_assoc. reflexivity.
Qed.

End AttemptCases.

(** X10: an attempt before the last one never raises: it returns a record,
    or [None] after exactly one pause; the last attempt never pauses and
    never returns [None]: it returns a record or raises. *)
Theorem attempt_swallows_errors_before_last
    (w : world) (cfg : config) (natural_query : str) (attempt : nat)
    (t : trace) :
  (attempt < MAX_RETRIES ->
   exists r evs,
     attempt_query_execution w cfg natural_query attempt t = (Ret r, t ++ evs)
     /\ count is_sleep evs = match r with None => 1 | Some _ => 0 end)
  /\ (MAX_RETRIES <= attempt ->
      exists r evs,
        attempt_query_execution w cfg natural_query attempt t = (r, t ++ evs)
        /\ r <> Ret None /\ count is_sleep evs = 0).
Proof.
  destruct (attempt_cases w cfg natural_query attempt t)
    as (evs & (Sl & _) & [(e & _ & R)|(d & _ & R)]).
  - unfold handled, pause in R. split; intros B.
    + apply Nat.ltb_lt in B. rewrite B in R.
      exists None, (evs ++ [EvSleep RETRY_DELAY]). split; [exact R|].
      rewrite count_app, Sl. reflexivity.
    + apply Nat.ltb_ge in B. rewrite B in R.
      exists (Raise e), evs. rewrite app_nil_r in R.
      split; [exact R|]. split; [discriminate | exact Sl].
  - split; intros _.
    + exists (Some d), evs. split; [exact R | exact Sl].
    + exists (Ret (Some d)), evs. split; [exact R|].
      split; [discriminate | exact Sl].
Qed.

Lemma attempt_swallows_errors_before_last_witness :
  exists r evs,
    attempt_query_execution empty_world full_config
      (lit "How many orders this month?") 1 [] = (Ret r, [] ++ evs)
    /\ count is_sleep evs = match r with None => 1 | Some _ => 0 end.
Proof.
  apply (proj1 (attempt_swallows_errors_before_last empty_world full_config
                  (lit "How many orders this month?") 1 [])).
  unfold MAX_RETRIES. lia.
Defined.

(** X11: when the generation service fails, the attempt ends there: the
    database is not contacted and [generate_insights] is not entered. *)
Theorem attempt_stops_at_generation_failure
    (w : world) (cfg : config) (natural_query : str) (attempt : nat)
    (t : trace) (m : exn) :
  chat w (count is_chat t) gpt_model
       (sql_messages (enhance_prompt natural_query attempt)) = Fail m ->
  attempt_query_execution w cfg natural_query attempt t
  = (handled attempt m,
     t ++ [EvChat gpt_model
             (sql_messages (enhance_prompt natural_query attempt))]
       ++ pause attempt).
Proof.
  intros H. unfold attempt_query_execution, try_except, bind at 1.
  rewrite (enhance_query_fail_run w natural_query attempt t m H).
  rewrite handler_run, <- app_assoc. reflexivity.
Qed.

Lemma attempt_stops_at_generation_failure_witness :
  attempt_query_execution
    {| chat := fun _ _ _ => Fail (lit "rate limit");
       database := fun _ _ => session_with five_rows;
       now := fun _ => lit "2024-01-15T10:00:00";
       json_dumps := fun _ => lit "[]" |}
    full_config (lit "How many orders?") 3 []
  = (Raise (lit "rate limit"),
     [EvChat gpt_model
        (sql_messages (enhance_prompt (lit "How many orders?") 3))]).
Proof.
  rewrite (attempt_stops_at_generation_failure
             {| chat := fun _ _ _ => Fail (lit "rate limit");
                database := fun _ _ => session_with five_rows;
                now := fun _ => lit "2024-01-15T10:00:00";
                json_dumps := fun _ => lit "[]" |}
             full_config (lit "How many orders?") 3 [] (lit "rate limit"));
    reflexivity.
Defined.

(** ** A whole run, in every world *)

Section ProcessRun.

Variable w : world.
Variable cfg : config.

Lemma count_zero_forall (p : event -> bool) (l : trace) :
  count p l = 0 -> Forall (fun e => p e = false) l.
Proof.
  unfold count. induction l as [|e l IH]; simpl; [constructor|].
  destruct (p e) eqn:E; simpl; [discriminate|].
  intros H. constructor; auto.
Qed.

Lemma no_sleep_pauses_ok (l : trace) :
  count is_sleep l = 0 ->
  Forall (fun e => is_sleep e = true -> e = EvSleep RETRY_DELAY) l.
Proof.
  intros H. eapply Forall_impl; [|exact (count_zero_forall _ _ H)].
  simpl. intros e E T. congruence.
Qed.

Lemma process_query_unconfigured_run (natural_query : str) (t : trace) :
  configured cfg = false ->
  exists error_msg,
    process_query w cfg natural_query t
    = (Ret (failure error_msg natural_query (now w (List.length t))), t)
    /\ (error_msg = lit "Database configuration is incomplete"
        \/ error_msg = lit "OpenAI API key is not set").
Proof.
  unfold configured, process_query. intros H.
  destruct (forallb truthy
              [db_host cfg; db_name cfg; db_user cfg; db_password cfg]).
  - simpl in H. rewrite H. eexists. split; [reflexivity | right; reflexivity].
  - eexists. split; [reflexivity | left; reflexivity].
Qed.

(** The facts about the events of attempts that are put together. *)
Ltac run_facts :=
  repeat match goal with
         | |- _ /\ _ => split
         | |- _ <= _ =>
             unfold count in *; rewrite ?filter_app, ?length_app; simpl;
             unfold MAX_RETRIES; lia
         | |- count _ _ = _ =>
             unfold count in *; rewrite ?filter_app, ?length_app; simpl;
             unfold MAX_RETRIES; lia
         | |- Forall (fun e => is_sleep e = true -> _) _ =>
             rewrite ?Forall_app;
             repeat split;
             try (apply no_sleep_pauses_ok; assumption);
             repeat constructor
         | |- sql_prompts _ = _ =>
             rewrite ?sql_prompts_app;
             repeat match goal with
                    | H : sql_prompts _ = _ |- _ => rewrite H; clear H
                    end;
             reflexivity
         | |- Forall (sanitized_answer w) (executed _) =>
             rewrite ?executed_app, ?Forall_app;
             repeat split; try assumption; constructor
         end.

(** A run with a complete configuration makes attempts 1 to [k] and ends
    at attempt [k] with its success record, or at the last attempt with the
    failure record that carries its error. *)
Lemma process_query_run (natural_query : str) (t : trace) :
  configured cfg = true ->
  exists k evs,
    (1 <= k <= MAX_RETRIES
     /\ count is_sleep evs = k - 1
     /\ Forall (fun e => is_sleep e = true -> e = EvSleep RETRY_DELAY) evs
     /\ k <= count is_chat evs
     /\ count is_chat evs <= 2 * k
     /\ count is_connect evs <= k
     /\ count is_insights evs <= k
     /\ sql_prompts evs = map (enhance_prompt natural_query) (seq 1 k)
     /\ Forall (sanitized_answer w) (executed evs))
    /\ ((exists d,
           success_at natural_query k d
           /\ process_query w cfg natural_query t = (Ret d, t ++ evs))
        \/ (k = MAX_RETRIES
            /\ exists e,
                 attempt_error w e
                 /\ process_query w cfg natural_query t
                    = (Ret (failure
                              (lit "All 3 attempts failed. Last error: " ++ e)
                              natural_query
                              (now w (List.length (t ++ evs)))),
                       t ++ evs))).
Proof.
  intros Hcfg.
  rewrite (process_query_configured w cfg natural_query t Hcfg).
  change (seq 1 MAX_RETRIES) with [1; 2; 3].
  destruct (attempt_cases w cfg natural_query 1 t)
    as (e1 & (S1 & [C1 C1'] & D1 & I1 & P1 & X1) & [(x1 & K1 & R1)|(d1 & K1 & R1)]).
  2: { (* attempt 1 succeeds *)
    pose proof K1 as (? & ? & ? & ? & Ed & _).
    rewrite Ed in R1.
    rewrite (attempts_step_some w cfg natural_query 1 [2; 3] None _ _ _ _ R1).
    exists 1, e1. split; [run_facts|].
    left. exists d1. split; [exact K1 | rewrite Ed; reflexivity]. }
  change (handled 1 x1) with (@Ret (option dict) None) in R1.
  change (pause 1) with [EvSleep RETRY_DELAY] in R1.
  rewrite (attempts_step_none w cfg natural_query 1 [2; 3] None _ _ R1).
  destruct (attempt_cases w cfg natural_query 2
              (t ++ e1 ++ [EvSleep RETRY_DELAY]))
    as (e2 & (S2 & [C2 C2'] & D2 & I2 & P2 & X2) & [(x2 & K2 & R2)|(d2 & K2 & R2)]).
  2: { (* attempt 2 succeeds *)
    pose proof K2 as (? & ? & ? & ? & Ed & _).
    rewrite Ed in R2.
    rewrite (attempts_step_some w cfg natural_query 2 [3] None _ _ _ _ R2).
    exists 2, ((e1 ++ [EvSleep RETRY_DELAY]) ++ e2). split; [run_facts|].
    left. exists d2. split; [exact K2|].
    rewrite Ed, <- !app_assoc. reflexivity. }
  change (handled 2 x2) with (@Ret (option dict) None) in R2.
  change (pause 2) with [EvSleep RETRY_DELAY] in R2.
  rewrite (attempts_step_none w cfg natural_query 2 [3] None _ _ R2).
  destruct (attempt_cases w cfg natural_query 3
              ((t ++ e1 ++ [EvSleep RETRY_DELAY])
                 ++ e2 ++ [EvSleep RETRY_DELAY]))
    as (e3 & (S3 & [C3 C3'] & D3 & I3 & P3 & X3) & [(x3 & K3 & R3)|(d3 & K3 & R3)]).
  2: { (* attempt 3 succeeds *)
    pose proof K3 as (? & ? & ? & ? & Ed & _).
    rewrite Ed in R3.
    rewrite (attempts_step_some w cfg natural_query 3 [] None _ _ _ _ R3).
    exists 3, (((e1 ++ [EvSleep RETRY_DELAY]) ++ e2 ++ [EvSleep RETRY_DELAY])
                 ++ e3).
    split; [run_facts|].
    left. exists d3. split; [exact K3|].
    rewrite Ed, <- !app_assoc. reflexivity. }
  change (handled 3 x3) with (@Raise (option dict) x3) in R3.
  change (pause 3) with (@nil event) in R3. rewrite app_nil_r in R3.
  rewrite (attempts_step_raise w cfg natural_query 3 [] None _ _ _ R3).
  cbn [attempts ret].
  exists 3, (((e1 ++ [EvSleep RETRY_DELAY]) ++ e2 ++ [EvSleep RETRY_DELAY])
               ++ e3).
  split; [run_facts|].
  right. split; [reflexivity|]. exists x3. split; [exact K3|].
  rewrite <- !app_assoc. reflexivity.
Qed.

End ProcessRun.

(** X12: a run of [process_query] is bounded, whatever the services
    answer: at most [2 * MAX_RETRIES] calls of the generation service, at
    most [MAX_RETRIES] connections to the database, at most
    [MAX_RETRIES - 1] pauses, each of [RETRY_DELAY], and at most
    [MAX_RETRIES] entries into [generate_insights]. *)
Theorem process_query_bounded
    (w : world) (cfg : config) (natural_query : str) :
  let t := snd (process_query w cfg natural_query []) in
  count is_chat t <= 2 * MAX_RETRIES
  /\ count is_connect t <= MAX_RETRIES
  /\ count is_sleep t <= MAX_RETRIES - 1
  /\ Forall (fun e => is_sleep e = true -> e = EvSleep RETRY_DELAY) t
  /\ count is_insights t <= MAX_RETRIES.
Proof.
  destruct (configured cfg) eqn:Hcfg.
  - destruct (process_query_run w cfg natural_query [] Hcfg)
      as (k & evs & ([K1 K2] & Sl & Fs & _ & Ch & Co & In & _) & R).
    assert (E : snd (process_query w cfg natural_query []) = evs).
    { destruct R as [(d & _ & ->)|(_ & e & _ & ->)]; reflexivity. }
    cbv zeta. rewrite E. unfold MAX_RETRIES in *.
    repeat split; try assumption; lia.
  - destruct (process_query_unconfigured_run w cfg natural_query [] Hcfg)
      as (msg & -> & _).
    simpl. repeat split; try (cbv; lia). constructor.
Qed.

(** X13: the attempt number of a success record counts the run: with
    [attempt] equal to [k] there were exactly [k - 1] pauses, and the
    requests for SQL were the prompts of attempts 1 to [k], in this
    order. *)
Theorem success_record_counts_the_run
    (w : world) (cfg : config) (natural_query : str) (d : dict) (t : trace)
    (k : nat) :
  process_query w cfg natural_query [] = (Ret d, t) ->
  dict_get (lit "attempt") d = Some (VInt (Z.of_nat k)) ->
  count is_sleep t = k - 1
  /\ sql_prompts t = map (enhance_prompt natural_query) (seq 1 k)
  /\ 1 <= k <= MAX_RETRIES.
Proof.
  intros R A. destruct (configured cfg) eqn:Hcfg.
  - destruct (process_query_run w cfg natural_query [] Hcfg)
      as (k' & evs & (K & Sl & _ & _ & _ & _ & _ & Pr & _) & R').
    destruct R' as [(d' & S & R')|(_ & e & _ & R')];
      rewrite R' in R; injection R as <- <-.
    + destruct S as (? & ? & ? & ? & -> & _).
      simpl in A. injection A as A. apply Nat2Z.inj in A. subst k'.
      auto.
    + discriminate A.
  - destruct (process_query_unconfigured_run w cfg natural_query [] Hcfg)
      as (msg & R' & _).
    rewrite R' in R. injection R as <- <-. discriminate A.
Qed.

Lemma success_record_counts_the_run_witness :
  exists d t,
    process_query second_try_world full_config
      (lit "How many orders this month?") [] = (Ret d, t)
    /\ count is_sleep t = 1
    /\ sql_prompts t
       = [enhance_prompt (lit "How many orders this month?") 1;
          enhance_prompt (lit "How many orders this month?") 2].
Proof.
  pose proof (success_record_counts_the_run second_try_world full_config
                (lit "How many orders this month?") _ _ 2
                eq_refl eq_refl) as (A & B & _).
  eexists _, _. split; [reflexivity|]. split; [exact A | exact B].
Defined.

(** X14: a failure record is of one of two kinds.  With an incomplete
    configuration its error is one of the two messages of the checks and
    nothing was called.  With a complete one its error is
    [All 3 attempts failed. Last error: ] followed by the error of the
    third attempt (no row, a wrapped database error, or what the
    generation service raised); there were two pauses and three requests
    for SQL, with the prompts of attempts 1, 2 and 3. *)
Theorem failure_record_kinds
    (w : world) (cfg : config) (natural_query : str) (d : dict) (t : trace)
    (v : value) :
  process_query w cfg natural_query [] = (Ret d, t) ->
  dict_get (lit "error") d = Some v ->
  (configured cfg = false /\ t = []
   /\ (v = VStr (lit "Database configuration is incomplete")
       \/ v = VStr (lit "OpenAI API key is not set")))
  \/ (configured cfg = true
      /\ (exists e,
             attempt_error w e
             /\ v = VStr (lit "All 3 attempts failed. Last error: " ++ e))
      /\ count is_sleep t = 2
      /\ sql_prompts t = map (enhance_prompt natural_query) [1; 2; 3]).
Proof.
  intros R A. destruct (configured cfg) eqn:Hcfg.
  - right. split; [reflexivity|].
    destruct (process_query_run w cfg natural_query [] Hcfg)
      as (k' & evs & (K & Sl & _ & _ & _ & _ & _ & Pr & _) & R').
    destruct R' as [(d' & S & R')|(-> & e & Ke & R')];
      rewrite R' in R; injection R as <- <-.
    + destruct S as (? & ? & ? & ? & -> & _). discriminate A.
    + simpl in A. injection A as <-.
      split; [exists e; split; [exact Ke | reflexivity]|].
      split; [exact Sl | exact Pr].
  - left. split; [reflexivity|].
    destruct (process_query_unconfigured_run w cfg natural_query [] Hcfg)
      as (msg & R' & M).
    rewrite R' in R. injection R as <- <-.
    split; [reflexivity|]. simpl in A. injection A as <-.
    destruct M as [->| ->]; auto.
Qed.

Lemma failure_record_kinds_witness :
  exists e,
    attempt_error empty_world e
    /\ VStr (lit "All 3 attempts failed. Last error: Query returned no results")
       = VStr (lit "All 3 attempts failed. Last error: " ++ e).
Proof.
  destruct (failure_record_kinds empty_world full_config
              (lit "How many orders?") _ _
              (VStr (lit "All 3 attempts failed. Last error: Query returned no results"))
              eq_refl eq_refl)
    as [(C & _)|(_ & H & _)]; [discriminate C | exact H].
Defined.

(** X15: [process_query] calls the outside exactly when the configuration
    is complete: with a missing credential its trace stays empty, with a
    complete configuration it asks the generation service at least
    once. *)
Theorem process_query_calls_iff_configured
    (w : world) (cfg : config) (natural_query : str) :
  (snd (process_query w cfg natural_query []) = [] <-> configured cfg = false)
  /\ (configured cfg = true ->
      1 <= count is_chat (snd (process_query w cfg natural_query []))).
Proof.
  destruct (configured cfg) eqn:Hcfg.
  - destruct (process_query_run w cfg natural_query [] Hcfg)
      as (k & evs & ([K1 K2] & _ & _ & Ch & _) & R).
    assert (E : snd (process_query w cfg natural_query []) = evs).
    { destruct R as [(d & _ & ->)|(_ & e & _ & ->)]; reflexivity. }
    rewrite E. split; [|intros _; lia].
    split; [|discriminate]. intros ->. cbv in Ch. lia.
  - destruct (process_query_unconfigured_run w cfg natural_query [] Hcfg)
      as (msg & -> & _).
    simpl. split; [tauto | discriminate].
Qed.

Lemma process_query_calls_iff_configured_witness :
  snd (process_query empty_world no_password_config (lit "How many?") []) = []
  /\ 1 <= count is_chat
            (snd (process_query empty_world full_config (lit "How many?") [])).
Proof.
  split.
  - apply (proj1 (process_query_calls_iff_configured empty_world
                    no_password_config (lit "How many?"))).
    reflexivity.
  - apply (proj2 (process_query_calls_iff_configured empty_world
                    full_config (lit "How many?"))).
    reflexivity.
Defined.

(** X16: every statement that a run sends to the database is an answer of
    the generation service, stripped and passed through [clean_sql]; so it
    has no white space at its ends. *)
Theorem executed_statements_are_sanitized
    (w : world) (cfg : config) (natural_query : str) :
  Forall (fun sql => sanitized_answer w sql
                     /\ lstrip sql = sql /\ rstrip sql = sql)
         (executed (snd (process_query w cfg natural_query []))).
Proof.
  assert (H : Forall (sanitized_answer w)
                (executed (snd (process_query w cfg natural_query [])))).
  { destruct (configured cfg) eqn:Hcfg.
    - destruct (process_query_run w cfg natural_query [] Hcfg)
        as (k & evs & (_ & _ & _ & _ & _ & _ & _ & _ & X) & R).
      destruct R as [(d & _ & ->)|(_ & e & _ & ->)]; exact X.
    - destruct (process_query_unconfigured_run w cfg natural_query [] Hcfg)
        as (msg & -> & _).
      constructor. }
  eapply Forall_impl; [|exact H].
  intros sql S. split; [exact S|].
  destruct S as (i & messages & s & _ & ->).
  split; [apply lstrip_strip | apply rstrip_strip].
Qed.

(** ** The endpoint and the configuration *)

(** X17: the endpoint answers with the insights of the success record of
    [process_query], and in every other case raises an [HTTPException]
    with status 500 whose detail is [str] of the [HTTPException] raised
    for the error of the failure record; the default text for missing
    insights is never used, and the endpoint adds no call of its own. *)
Theorem get_insights_outcome
    (fw : framework) (w : world) (cfg : config) (query : str) (t : trace) :
  exists d t',
    process_query w cfg query t = (Ret d, t')
    /\ snd (get_insights fw w cfg query t) = t'
    /\ ((exists insights,
           is_success query d
           /\ dict_get (lit "insights") d = Some (VStr insights)
           /\ fst (get_insights fw w cfg query t)
              = InsightResponse insights (now w (List.length t')))
        \/ (exists error_msg,
              is_failure query d
              /\ dict_get (lit "error") d = Some (VStr error_msg)
              /\ fst (get_insights fw w cfg query t)
                 = HTTPException 500
                     (http_exception_str fw 500 (VStr error_msg)))).
Proof.
  destruct (process_query_spec w cfg (fun _ => True)
              (fun _ _ => I) (fun _ _ => I) (fun _ => I) (fun _ _ _ => I)
              query t) as (evs & E & _ & d & R & H).
  assert (Run : process_query w cfg query t = (Ret d, t ++ evs)).
  { destruct (process_query w cfg query t) as [r t'].
    simpl in *. subst. reflexivity. }
  exists d, (t ++ evs). split; [exact Run|].
  unfold get_insights. rewrite Run.
  destruct H as [S|F].
  - pose proof S as (sql & results & insights & attempt & ts & -> & _).
    split; [reflexivity|]. left. exists insights.
    split; [exact S|]. split; reflexivity.
  - pose proof F as (msg & ts & ->).
    split; [reflexivity|]. right. exists msg.
    split; [exact F|]. split; reflexivity.
Qed.



Lemma process_query_bounded_witness :
  count is_chat
    (snd (process_query second_try_world full_config
            (lit "How many orders this month?") [])) <= 6
  /\ count is_sleep
       (snd (process_query second_try_world full_config
               (lit "How many orders this month?") [])) <= 2.
Proof.
  pose proof (process_query_bounded second_try_world full_config
                (lit "How many orders this month?")) as H.
  cbv zeta in H. destruct H as (A & _ & B & _).
  split; [exact A | exact B].
Defined.

(** ** The two requests to the generation service *)

Section Requests.

Lemma strip_fenced (ws0 mid ws3 : str) :
  forallb is_space ws0 = true ->
  forallb is_space ws3 = true ->
  strip (ws0 ++ sql_fence ++ mid ++ fence ++ ws3)
  = sql_fence ++ mid ++ fence.
Proof.
  intros W0 W3. unfold strip. rewrite lstrip_app, W0.
  change (lstrip (sql_fence ++ mid ++ fence ++ ws3))
    with (sql_fence ++ mid ++ fence ++ ws3).
  replace (sql_fence ++ mid ++ fence ++ ws3)
    with (((sql_fence ++ mid ++ lit "``") ++ [ascii_of_nat 96]) ++ ws3)
    by (rewrite <- !app_assoc; reflexivity).
  rewrite (rstrip_app_space _ _ W3), rstrip_snoc by reflexivity.
  rewrite <- !app_assoc. reflexivity.
Qed.

End Requests.

(** X19: when the generation service answers with a fenced statement,
    with white space around the fences, [enhance_query] returns the bare
    statement; when it answers with a statement without back quote,
    [enhance_query] returns it stripped. *)
Theorem enhance_query_returns_statement
    (w : world) (natural_query : str) (attempt : nat) (t : trace)
    (answer body ws0 ws1 ws2 ws3 : str) :
  chat w (count is_chat t) gpt_model
       (sql_messages (enhance_prompt natural_query attempt)) = Ok answer ->
  forallb is_space ws0 = true -> forallb is_space ws1 = true ->
  forallb is_space ws2 = true -> forallb is_space ws3 = true ->
  lstrip body = body -> rstrip body = body ->
  (contains sql_fence body = false ->
   answer = ws0 ++ sql_fence ++ ws1 ++ body ++ ws2 ++ fence ++ ws3 ->
   fst (enhance_query w natural_query attempt t) = Ret body)
  /\ (~ In (ascii_of_nat 96) body ->
      answer = ws0 ++ body ++ ws3 ->
      fst (enhance_query w natural_query attempt t) = Ret body).
Proof.
  intros H W0 W1 W2 W3 L R.
  rewrite (enhance_query_run w natural_query attempt t answer H).
  cbn [fst]. split.
  - intros C ->. f_equal.
    replace (ws0 ++ sql_fence ++ ws1 ++ body ++ ws2 ++ fence ++ ws3)
      with (ws0 ++ sql_fence ++ (ws1 ++ body ++ ws2) ++ fence ++ ws3)
      by (rewrite <- !app_assoc; reflexivity).
    rewrite (strip_fenced ws0 (ws1 ++ body ++ ws2) ws3 W0 W3).
    replace (sql_fence ++ (ws1 ++ body ++ ws2) ++ fence)
      with (sql_fence ++ ws1 ++ body ++ ws2 ++ fence ++ [])
      by (rewrite <- !app_assoc, app_nil_r; reflexivity).
    apply clean_sql_fenced_statement; auto.
  - intros N ->. f_equal.
    assert (S : strip (ws0 ++ body ++ ws3) = body).
    { unfold strip. rewrite lstrip_app, W0.
      destruct body as [|c body].
      - cbn [app]. rewrite (lstrip_all_space _ W3). reflexivity.
      - change ((c :: body) ++ ws3) with (c :: body ++ ws3).
        rewrite (lstrip_fixed c _ (lstrip_head _ _ _ L)).
        change (c :: body ++ ws3) with ((c :: body) ++ ws3).
        rewrite (rstrip_app_space _ _ W3). exact R. }
    rewrite S, (clean_sql_no_backquote body N).
    apply strip_fixed; assumption.
Qed.

Lemma enhance_query_returns_statement_witness :
  fst (enhance_query empty_world (lit "How many orders?") 1 [])
  = Ret (lit "SELECT count(*) AS n FROM ordertab").
Proof.
  apply (proj1 (enhance_query_returns_statement empty_world
                  (lit "How many orders?") 1 []
                  (lit "```sql SELECT count(*) AS n FROM ordertab ```")
                  (lit "SELECT count(*) AS n FROM ordertab")
                  [] (lit " ") (lit " ") []
                  eq_refl eq_refl eq_refl eq_refl eq_refl eq_refl eq_refl));
    reflexivity.
Defined.

(** X20: [generate_insights] sends one request, whose prompt carries the
    question and the JSON text of the records, and returns the answer as
    it is, without stripping it; an error of the service is raised
    unchanged. *)
Theorem generate_insights_request
    (w : world) (results : list dict) (query : str) (t : trace) :
  generate_insights w results query t
  = (match chat w (count is_chat t) gpt_model
             (insight_messages (insight_prompt w results query)) with
     | Ok answer => Ret answer
     | Fail m => Raise m
     end,
     t ++ [EvInsights results query;
           EvChat gpt_model
             (insight_messages (insight_prompt w results query))])
  /\ contains query (insight_prompt w results query) = true
  /\ contains (json_dumps w results) (insight_prompt w results query) = true.
Proof.
  split; [|split].
  - destruct (chat w (count is_chat t) gpt_model
                (insight_messages (insight_prompt w results query)))
      as [answer|m] eqn:H.
    + apply generate_insights_run, H.
    + apply generate_insights_fail_run, H.
  - unfold insight_prompt, text.
    eapply contains_join; [do 1 right; left; reflexivity|].
    apply contains_app_r, contains_app_r, contains_app_l, contains_refl.
  - unfold insight_prompt, text.
    eapply contains_join; [do 4 right; left; reflexivity|].
    apply contains_app_r, contains_refl.
Qed.
